(** * A shallow embedding of [foto_organization_tool.py]

    The script sorts the files of a source folder into a destination tree:
    [filter_files_with_regex] splits images from other files,
    [create_dst_path_for_file] computes a destination path that does not
    overwrite anything (adding [_Kopie(i)] on collision),
    [extract_exif_from_image_and_move_to_dest_folder] and [move_other_files]
    move the two groups, [delete_copy_pictures_from_destination] removes
    [Kopie] files whose size equals the one of their original, and
    [delete_empty_folders] prunes empty directories.

    Python strings are [string]s (ASCII), Python exceptions are the
    constructors of [exn] carried by the result type [res]; the file system
    is passed explicitly, and the effects the script only observes through
    library calls (PIL, [shutil.move], [os.remove], [os.path.getsize],
    [datetime.strptime]) are fields of an explicit environment record. *)

From Stdlib Require Import String Ascii List DecimalString DecimalNat Decimal
  Arith Lia Bool Finite ZArith Permutation Sorted.
From Stdlib Require QArith.
Import ListNotations.
Open Scope string_scope.

(* ------------------------------------------------------------------ *)
(** ** Python string primitives *)

(** [str(n)] for a non-negative int. *)
Definition py_str_nat (n : nat) : string :=
  NilEmpty.string_of_uint (Nat.to_uint n).

(** [str.lower] on ASCII letters. *)
Definition lower_char (c : ascii) : ascii :=
  let n := nat_of_ascii c in
  if ((65 <=? n) && (n <=? 90))%nat then ascii_of_nat (n + 32) else c.

Fixpoint py_lower (s : string) : string :=
  match s with
  | EmptyString => EmptyString
  | String c s' => String (lower_char c) (py_lower s')
  end.

Definition starts_with_slash (s : string) : bool :=
  match s with
  | String "/" _ => true
  | _ => false
  end.

Fixpoint ends_with_slash (s : string) : bool :=
  match s with
  | EmptyString => false
  | String "/" EmptyString => true
  | String _ s' => ends_with_slash s'
  end.

(** [posixpath.join(a, b)] for two components. *)
Definition py_join (a b : string) : string :=
  if starts_with_slash b then b
  else if (a =? "") || ends_with_slash a then a ++ b
  else a ++ "/" ++ b.

(* ------------------------------------------------------------------ *)
(** ** The file system seen by the resolver

    The set of existing paths (files and directories) is a list of
    strings; [os.path.exists] is membership. *)

Definition fs := list string.

Definition path_exists (f : fs) (p : string) : bool :=
  existsb (String.eqb p) f.

(** The proper ancestors of a path that [os.makedirs] creates before the
    leaf: every nonempty prefix that ends just before a ['/']. *)
Fixpoint parent_dirs_go (acc : string) (s : string) : list string :=
  match s with
  | EmptyString => []
  | String c s' =>
      let rest := parent_dirs_go (acc ++ String c EmptyString) s' in
      if (c =? "/")%char && negb (acc =? "") then acc :: rest else rest
  end.

(** [os.makedirs(name)]: the missing ancestors and [name] itself. *)
Definition makedirs (f : fs) (name : string) : fs :=
  (f ++ filter (fun d => negb (path_exists f d)) (parent_dirs_go "" name ++ [name]))%list.

(** The name [f"{filename}_Kopie({index}).{extension}"]. *)
Definition kopie_name (filename : string) (index : nat) (ext : string) : string :=
  filename ++ ("_Kopie(" ++ (py_str_nat index ++ (")." ++ ext))).

(** The [while good_to_go == False] loop of [create_dst_path_for_file],
    entered with [index] already incremented; [fuel] bounds the number of
    iterations ([None] when it runs out). *)
Fixpoint probe (f : fs) (base filename ext : string) (fuel index : nat)
  : option string :=
  match fuel with
  | O => None
  | S fuel' =>
      let dst_path := py_join base (kopie_name filename index ext) in
      if negb (path_exists f dst_path) then Some dst_path
      else probe f base filename ext fuel' (S index)
  end.

(** [create_dst_path_for_file(base_path, filename, extension)]: returns the
    file system after the [os.makedirs] and the destination path.  The fuel
    of the loop is one more than the number of existing paths, which is
    always enough (see [probe_total]). *)
Definition create_dst_path_for_file (f : fs) (base_path filename extension : string)
  : fs * option string :=
  let f1 := if negb (path_exists f base_path) then makedirs f base_path else f in
  let created_filename := filename ++ "." ++ py_lower extension in
  let dst_path := py_join base_path created_filename in
  if path_exists f1 dst_path
  then (f1, probe f1 base_path filename (py_lower extension) (S (length f1)) 1)
  else (f1, Some dst_path).

(* ------------------------------------------------------------------ *)
(** ** [filter_files_with_regex]

    The pattern is a group [filename] matching [.*], a literal dot, and a
    group [extension] matching [JPG|jpg|jpeg|PNG|png|tiff|tif|TIF|BMP|bmp],
    used with [re.finditer] (a search, not anchored at either end); the
    groups of the last match are kept.  [.] matches any character but a
    newline, [.*] is greedy and backtracks, the alternatives are tried in
    order. *)

(** The tail returned by [os.path.split]: the text after the last ['/']. *)
Fixpoint basename_go (acc s : string) : string :=
  match s with
  | EmptyString => acc
  | String c s' => if (c =? "/")%char then basename_go "" s'
                   else basename_go (acc ++ String c EmptyString) s'
  end.

Definition py_basename (s : string) : string := basename_go "" s.

Definition newline : ascii := ascii_of_nat 10.

Definition regex_extensions : list string :=
  ["JPG"; "jpg"; "jpeg"; "PNG"; "png"; "tiff"; "tif"; "TIF"; "BMP"; "bmp"].

Fixpoint str_drop (n : nat) (s : string) : string :=
  match n, s with
  | O, _ => s
  | S _, EmptyString => EmptyString
  | S n', String _ s' => str_drop n' s'
  end.

(** The extension group: the first alternative that is a prefix of [r]. *)
Definition match_extension (r : string) : option string :=
  find (fun a => String.prefix a r) regex_extensions.

(** [\.(?P<extension>...)] at the start of [s]: extension and rest. *)
Definition match_dot_ext (s : string) : option (string * string) :=
  match s with
  | String "." r =>
      match match_extension r with
      | Some a => Some (a, str_drop (String.length a) r)
      | None => None
      end
  | _ => None
  end.

(** The whole pattern anchored at the start of [s]: the greedy [.*] first
    tries to take one more (non-newline) character, and falls back to the
    [\.ext] part at the current position.  Result: filename group,
    extension group, text after the match. *)
Fixpoint match_at (s : string) : option (string * string * string) :=
  let here := match match_dot_ext s with
              | Some (a, rest) => Some ("", a, rest)
              | None => None
              end in
  match s with
  | EmptyString => None
  | String c s' =>
      if (c =? newline)%char then here
      else match match_at s' with
           | Some (fn, a, rest) => Some (String c fn, a, rest)
           | None => here
           end
  end.

(** [re.search]: the leftmost starting position that matches. *)
Fixpoint regex_search (s : string) : option (string * string * string) :=
  match match_at s with
  | Some m => Some m
  | None => match s with
            | EmptyString => None
            | String _ s' => regex_search s'
            end
  end.

(** The loop [for match in filename_matches: filename, extension =
    match.groups()]: successive non-overlapping matches, each search starting
    where the previous match ended; [last] holds the current values of
    [filename, extension].  Every match consumes at least two characters, so
    [String.length s + 1] rounds are enough (see [finditer_last_fuel]). *)
Fixpoint finditer_last_go (fuel : nat) (s : string) (last : option (string * string))
  : option (string * string) :=
  match fuel with
  | O => last
  | S fuel' =>
      match regex_search s with
      | Some (fn, a, rest) => finditer_last_go fuel' rest (Some (fn, a))
      | None => last
      end
  end.

Definition finditer_last (s : string) : option (string * string) :=
  finditer_last_go (S (String.length s)) s None.

(** The test [if not filename or not extension: others.append(file)]. *)
Definition is_image_file (file : string) : bool :=
  match finditer_last (py_basename file) with
  | Some (filename, extension) => negb (filename =? "") && negb (extension =? "")
  | None => false
  end.

(** [filter_files_with_regex(files_list)] returns [(imgs, others)]; the
    final [assert] on the lengths is [filter_files_with_regex_lengths]. *)
Fixpoint filter_files_with_regex (files_list : list string) : list string * list string :=
  match files_list with
  | [] => ([], [])
  | file :: rest =>
      let '(imgs, others) := filter_files_with_regex rest in
      if is_image_file file then (file :: imgs, others) else (imgs, file :: others)
  end.

(** The rule stated in the specification: the text after the final ['.'] of
    the file name, lower-cased, belongs to a fixed set. *)
Fixpoint final_extension_go (cur : option string) (s : string) : option string :=
  match s with
  | EmptyString => cur
  | String c s' =>
      if (c =? ".")%char then final_extension_go (Some "") s'
      else final_extension_go (option_map (fun e => e ++ String c EmptyString) cur) s'
  end.

Definition spec_image_extensions : list string :=
  ["jpg"; "jpeg"; "png"; "tiff"; "tif"; "bmp"].

Definition spec_is_image (file : string) : bool :=
  match final_extension_go None (py_basename file) with
  | Some e => existsb (String.eqb (py_lower e)) spec_image_extensions
  | None => false
  end.

Fixpoint has_char (c : ascii) (s : string) : bool :=
  match s with
  | EmptyString => false
  | String d s' => (d =? c)%char || has_char c s'
  end.

(* ------------------------------------------------------------------ *)
(** ** Exceptions and the environment of the moving loops *)

Inductive exn :=
  | NameError | IndexError | KeyError | TypeError | ValueError | OSError
  | AssertionError.

(** A Python computation either returns a value or raises. *)
Inductive res (A : Type) :=
  | Ok (a : A)
  | Raise (e : exn).
Arguments Ok {A} a.
Arguments Raise {A} e.

Definition res_bind {A B : Type} (m : res A) (k : A -> res B) : res B :=
  match m with
  | Ok a => k a
  | Raise e => Raise e
  end.

Notation "'let*' x ':=' m 'in' k" := (res_bind m (fun x => k))
  (at level 200, x pattern, m at level 100, k at level 200).

Record datetime := mk_datetime {
  dt_year : nat; dt_month : nat; dt_day : nat;
  dt_hour : nat; dt_minute : nat; dt_second : nat }.

(** What the loop sees of a PIL image: its detected [format] and the EXIF
    data of [_getexif()], with tag ids already mapped to names by [TAGS] and
    bytes decoded; [None] when [_getexif()] returns [None]. *)
Record pil_image := mk_pil_image {
  img_format : string;
  img_exif : option (list (string * string)) }.

(** The library calls the loops depend on. [image_open p = None]: PIL's
    [Image.open] raises; [strptime s = None]: [datetime.strptime(s,
    "%Y:%m:%d %H:%M:%S")] raises [ValueError]; [move_ok src dst]:
    [shutil.move] succeeds. *)
Record env := mk_env {
  image_open : string -> option pil_image;
  strptime : string -> option datetime;
  move_ok : string -> string -> bool }.

(** The entries of the configuration the loops read. *)
Record config := mk_config {
  destination_path : string;
  (** [str(config["include_year_in_destination_folder_level"])] *)
  include_year_in_destination_folder_level : string }.

(** [str.split('.')]. *)
Fixpoint split_dot_go (cur s : string) : list string :=
  match s with
  | EmptyString => [cur]
  | String c s' => if (c =? ".")%char then cur :: split_dot_go "" s'
                   else split_dot_go (cur ++ String c EmptyString) s'
  end.

Definition py_split_dot (s : string) : list string := split_dot_go "" s.

(** [needle in hay] for strings. *)
Fixpoint py_contains (needle hay : string) : bool :=
  String.prefix needle hay ||
  match hay with
  | EmptyString => false
  | String _ hay' => py_contains needle hay'
  end.

(** [dict[key]] on the dictionary built by inserting the pairs in order:
    the last value stored under [key]. *)
Fixpoint dict_lookup (key : string) (d : list (string * string)) : option string :=
  match d with
  | [] => None
  | (k, v) :: d' =>
      match dict_lookup key d' with
      | Some w => Some w
      | None => if k =? key then Some v else None
      end
  end.

(** Zero padding of a number to [w] digits, as in [strftime]. *)
Definition zero_pad (w : nat) (n : nat) : string :=
  let s := py_str_nat n in
  (fix pad k := match k with O => s | S k' => String "0" (pad k') end)
    (w - String.length s).

Definition strftime_Y (t : datetime) : string := zero_pad 4 (dt_year t).
Definition strftime_Y_m (t : datetime) : string :=
  strftime_Y t ++ "_" ++ zero_pad 2 (dt_month t).
Definition strftime_Ymd (t : datetime) : string :=
  strftime_Y t ++ zero_pad 2 (dt_month t) ++ zero_pad 2 (dt_day t).
Definition strftime_HMS (t : datetime) : string :=
  zero_pad 2 (dt_hour t) ++ zero_pad 2 (dt_minute t) ++ zero_pad 2 (dt_second t).

(** [shutil.move(src, dst)] on the set of existing paths. *)
Definition fs_move (f : fs) (src dst : string) : fs :=
  (filter (fun q => negb (q =? src)) f ++ [dst])%list.

(* ------------------------------------------------------------------ *)
(** ** [extract_exif_from_image_and_move_to_dest_folder] *)

(** The body of the first [try]: the new value of the local [image] (it is
    assigned as soon as [Image.open] returns) and either the values
    [(year_str, year_month_str, filename, extension)] or the exception. *)
Definition exif_try (e : env) (image : option pil_image) (image_path : string)
  : option pil_image * res (string * string * string * string) :=
  match image_open e image_path with
  | None => (image, Raise OSError)
  | Some img =>
      (Some img,
       match img_exif img with
       | None => Raise TypeError
       | Some exifdata =>
           match dict_lookup "DateTime" exifdata with
           | None => Raise KeyError
           | Some s =>
               match strptime e s with
               | None => Raise ValueError
               | Some image_time =>
                   Ok (strftime_Y image_time, strftime_Y_m image_time,
                       "IMG_" ++ strftime_Ymd image_time ++ "_" ++ strftime_HMS image_time,
                       py_lower (img_format img))
               end
           end
       end)
  end.

(** The [except:] branch: [image.close()] raises [NameError] while the local
    [image] was never assigned; then the name is split at its dots. *)
Definition exif_except (image : option pil_image) (image_path : string)
  : res (string * string) :=
  match image with
  | None => Raise NameError
  | Some _ =>
      let filename_full := py_basename image_path in
      match py_split_dot filename_full with
      | filename :: extension :: _ => Ok (filename, extension)
      | _ => Raise IndexError
      end
  end.

Record img_state := mk_img_state {
  st_fs : fs;
  st_image : option pil_image;
  success_list : list string;
  copy_list : list string;
  problem_list : list string }.

(** One iteration of [for image_path in tqdm(imgs)]. *)
Definition process_image (e : env) (output_folder : string) (include_year : bool)
    (st : img_state) (image_path : string) : res img_state :=
  let '(image, r) := exif_try e (st_image st) image_path in
  let* (valid_exif, (year_str, year_month_str, filename, extension)) :=
    match r with
    | Ok v => Ok (true, v)
    | Raise _ =>
        let* (filename, extension) := exif_except image image_path in
        Ok (false, ("", "", filename, extension))
    end in
  let base_path :=
    if valid_exif && include_year then py_join (py_join output_folder year_str) year_month_str
    else if valid_exif then py_join output_folder year_month_str
    else py_join output_folder "No_exif_data" in
  let '(f1, dst) := create_dst_path_for_file (st_fs st) base_path filename extension in
  match dst with
  | None => Raise AssertionError (* never: [create_dst_path_for_file_first_free] *)
  | Some dst_path =>
      if move_ok e image_path dst_path
      then Ok (mk_img_state (fs_move f1 image_path dst_path) image
                 (success_list st ++ [dst_path])
                 (if py_contains "Kopie" dst_path then copy_list st ++ [dst_path]
                  else copy_list st)
                 (problem_list st))%list
      else Ok (mk_img_state f1 image (success_list st) (copy_list st)
                 (problem_list st ++ [image_path]))%list
  end.

Fixpoint process_images (e : env) (output_folder : string) (include_year : bool)
    (st : img_state) (imgs : list string) : res img_state :=
  match imgs with
  | [] => Ok st
  | image_path :: rest =>
      let* st' := process_image e output_folder include_year st image_path in
      process_images e output_folder include_year st' rest
  end.

(** The function returns the file system after the moves and
    [(success_list, copy_list, problem_list)]; the local [image] starts
    unassigned. *)
Definition extract_exif_from_image_and_move_to_dest_folder (e : env) (cfg : config)
    (f : fs) (imgs : list string) : res (fs * list string * list string * list string) :=
  let output_folder := destination_path cfg in
  let include_year :=
    py_lower (include_year_in_destination_folder_level cfg) =? "true" in
  let* st := process_images e output_folder include_year (mk_img_state f None [] [] []) imgs in
  if (length imgs =? length (success_list st) + length (problem_list st))%nat
  then Ok (st_fs st, success_list st, copy_list st, problem_list st)
  else Raise AssertionError.

(* ------------------------------------------------------------------ *)
(** ** [move_other_files] *)

(** One iteration of [for file in tqdm(files)]: the split and the
    directory creation are outside any [try]. *)
Definition move_other_file (e : env) (cfg : config)
    (acc : fs * list string * list string) (file : string)
  : res (fs * list string * list string) :=
  let '(f, success_files, problem_files) := acc in
  let filename_full := py_basename file in
  match py_split_dot filename_full with
  | filename :: extension :: _ =>
      let base_path :=
        py_join (py_join (destination_path cfg) "Other Files") (extension ++ "_Files") in
      let f0 := if negb (path_exists f base_path) then makedirs f base_path else f in
      let '(f1, dst) := create_dst_path_for_file f0 base_path filename extension in
      match dst with
      | None => Raise AssertionError (* never: [create_dst_path_for_file_first_free] *)
      | Some dst_path =>
          if move_ok e file dst_path
          then Ok (fs_move f1 file dst_path, success_files ++ [file], problem_files)%list
          else Ok (f1, success_files, problem_files ++ [file])%list
      end
  | _ => Raise IndexError
  end.

Fixpoint move_other_files_go (e : env) (cfg : config)
    (acc : fs * list string * list string) (files : list string)
  : res (fs * list string * list string) :=
  match files with
  | [] => Ok acc
  | file :: rest =>
      let* acc' := move_other_file e cfg acc file in
      move_other_files_go e cfg acc' rest
  end.

(** Returns the file system after the moves and
    [(success_files, problem_files)]. *)
Definition move_other_files (e : env) (cfg : config) (f : fs) (files : list string)
  : res (fs * list string * list string) :=
  move_other_files_go e cfg (f, [], []) files.

(* ------------------------------------------------------------------ *)
(** ** [delete_copy_pictures_from_destination] *)

(** [str.split(sep)] for a nonempty separator; each round consumes at
    least one character, so [String.length s + 1] rounds suffice. *)
Fixpoint split_sep_go (sep : string) (fuel : nat) (cur s : string) : list string :=
  match fuel with
  | O => [cur ++ s]
  | S fuel' =>
      match s with
      | EmptyString => [cur]
      | String c s' =>
          if String.prefix sep s
          then cur :: split_sep_go sep fuel' "" (str_drop (String.length sep) s)
          else split_sep_go sep fuel' (cur ++ String c EmptyString) s'
      end
  end.

Definition py_split (sep s : string) : list string :=
  split_sep_go sep (S (String.length s)) "" s.

(** [s[:-1]]. *)
Fixpoint py_drop_last (s : string) : string :=
  match s with
  | EmptyString => EmptyString
  | String _ EmptyString => EmptyString
  | String c s' => String c (py_drop_last s')
  end.

(** The files of the file system with their sizes in bytes. *)
Definition store := list (string * nat).

Definition isfile (st : store) (p : string) : bool :=
  existsb (fun '(q, _) => q =? p) st.

(** [os.path.getsize], raising [FileNotFoundError] on a missing file. *)
Definition getsize (st : store) (p : string) : res nat :=
  match find (fun '(q, _) => q =? p) st with
  | Some (_, n) => Ok n
  | None => Raise OSError
  end.

(** What [os.remove(p)] does to an existing file: remove it, raise (e.g. a
    [PermissionError]), or return while the file stays visible. *)
Inductive rm_outcome := Removed | Denied | StillThere.

Definition os_remove (outcome : string -> rm_outcome) (st : store) (p : string) : res store :=
  match outcome p with
  | Removed => Ok (filter (fun '(q, _) => negb (q =? p)) st)
  | Denied => Raise OSError
  | StillThere => Ok st
  end.

(** [get_all_files_from_source(path)]: the files below [path]. *)
Definition get_all_files_from_source (st : store) (path : string) : list string :=
  filter (fun q => String.prefix (path ++ "/") q) (map fst st).

(** [file.split("Kopie")[0][:-1] + "." + file.split(".")[-1]]. *)
Definition org_file_of (file : string) : string :=
  py_drop_last (hd "" (py_split "Kopie" file)) ++ "." ++ last (py_split_dot file) "".

(** The [quene] of candidates. *)
Definition kopie_queue (st : store) (path : string) : list string :=
  filter (fun file => py_contains "Kopie" file && isfile st file)
    (get_all_files_from_source st path).

(** The loop [for file in tqdm(quene)] comparing sizes. *)
Fixpoint compare_sizes (st : store) (quene : list string)
    (deleted_files : list string) (problem_files : list (string * string))
  : res (list string * list (string * string)) :=
  match quene with
  | [] => Ok (deleted_files, problem_files)
  | file :: rest =>
      if isfile st file then
        let org_file := org_file_of file in
        let* size_org_file := getsize st org_file in
        let* size_file := getsize st file in
        if (size_file =? size_org_file)%nat
        then compare_sizes st rest (deleted_files ++ [file]) problem_files
        else compare_sizes st rest deleted_files
               (problem_files ++ [(file, "Size does not match")])
      else compare_sizes st rest deleted_files (problem_files ++ [(file, "No file")])
  end%list.

(** [list.remove(x)]: drop the first occurrence. *)
Fixpoint list_remove_first (x : string) (l : list string) : list string :=
  match l with
  | [] => []
  | y :: l' => if y =? x then l' else y :: list_remove_first x l'
  end.

(** [for file in del_files:] while the body removes items from [del_files]:
    Python's list iterator reads the item at index [i] of the current list
    and then moves to [i + 1], so the item after a removed one is skipped.
    [S (length del_files)] rounds suffice, the index growing each time. *)
Fixpoint delete_pass (outcome : string -> rm_outcome) (fuel i : nat)
    (del_files : list string) (st : store) : res (list string * store) :=
  match fuel with
  | O => Ok (del_files, st)
  | S fuel' =>
      match nth_error del_files i with
      | None => Ok (del_files, st)
      | Some file =>
          if isfile st file
          then let* st' := os_remove outcome st file in
               delete_pass outcome fuel' (S i) del_files st'
          else delete_pass outcome fuel' (S i) (list_remove_first file del_files) st
      end
  end.

(** [while len(del_files) > 0 or counter < 10:], run for at most [fuel]
    passes: [None] when the loop is still running after them. *)
Fixpoint delete_loop (outcome : string -> rm_outcome) (fuel counter : nat)
    (del_files : list string) (st : store) : option (res (list string * store * nat)) :=
  if ((0 <? length del_files) || (counter <? 10))%nat then
    match fuel with
    | O => None
    | S fuel' =>
        match delete_pass outcome (S (length del_files)) 0 del_files st with
        | Raise x => Some (Raise x)
        | Ok (del_files', st') => delete_loop outcome fuel' (S counter) del_files' st'
        end
    end
  else Some (Ok (del_files, st, counter)).

(** [delete_copy_pictures_from_destination(config)] with at most [fuel]
    passes of the [while] loop; [None] when the loop has not ended by then. *)
Definition delete_copy_pictures_from_destination (fuel : nat)
    (outcome : string -> rm_outcome) (st : store) (path : string)
  : option (res (list string * list (string * string))) :=
  let quene := kopie_queue st path in
  match compare_sizes st quene [] [] with
  | Raise x => Some (Raise x)
  | Ok (deleted_files, problem_files) =>
      match delete_loop outcome fuel 0 deleted_files st with
      | None => None
      | Some (Raise x) => Some (Raise x)
      | Some (Ok (del_files, _, _)) =>
          let problem_files :=
            if (0 <? length del_files)%nat
            then (problem_files ++ map (fun file => (file, "Could not be deleted")) del_files)%list
            else problem_files in
          if (length quene =? length deleted_files + length problem_files)%nat
          then Some (Ok (deleted_files, problem_files))
          else Some (Raise AssertionError)
      end
  end.

(** The text before the first occurrence of [sep] (all of [s] without
    one). *)
Fixpoint before_first (sep s : string) : string :=
  if String.prefix sep s then EmptyString
  else match s with
       | EmptyString => EmptyString
       | String c s' => String c (before_first sep s')
       end.

(** The text after the last dot (all of [s] without one). *)
Definition after_last_dot (s : string) : string :=
  match final_extension_go (Some "") s with
  | Some e => e
  | None => s
  end.

(* ------------------------------------------------------------------ *)
(** ** [delete_empty_folders] *)

(** A directory tree: files and directories with their entries. *)
Inductive entry :=
  | FileE (name : string)
  | DirE (name : string) (children : list entry).

Definition entry_name (e : entry) : string :=
  match e with
  | FileE n => n
  | DirE n _ => n
  end.

(** One [for dirpath, dirnames, filenames in os.walk(directory,
    topdown=False)] loop on the subtree [e] found at [dirpath].  [os.walk]
    lists a directory ([dirnames], [filenames]) before it walks into the
    subdirectories, and yields that listing after them; the body
    [if not dirnames and not filenames and dirpath != directory:
    os.rmdir(dirpath)] then sees the listing taken before the children were
    pruned.  [None]: the directory was removed. *)
Fixpoint walk_pass (directory dirpath : string) (e : entry) : option entry :=
  match e with
  | FileE n => Some (FileE n)
  | DirE n cs =>
      let cs' :=
        flat_map (fun c =>
                    match walk_pass directory (py_join dirpath (entry_name c)) c with
                    | Some c' => [c']
                    | None => []
                    end) cs in
      let listing_empty := match cs with [] => true | _ => false end in
      if listing_empty && negb (dirpath =? directory) then None
      else Some (DirE n cs')
  end.

Definition walk_pass_root (directory : string) (t : entry) : entry :=
  match walk_pass directory directory t with
  | Some t' => t'
  | None => t (* never: the root is never removed *)
  end.

(** [delete_empty_folders(directory, levels)] on the tree [t] rooted at
    [directory]: [levels] walks. *)
Definition delete_empty_folders (directory : string) (levels : nat) (t : entry) : entry :=
  Nat.iter levels (walk_pass_root directory) t.

(** The paths of all directories of a tree. *)
Fixpoint dir_paths (dirpath : string) (e : entry) : list string :=
  match e with
  | FileE _ => []
  | DirE _ cs =>
      dirpath :: flat_map (fun c => dir_paths (py_join dirpath (entry_name c)) c) cs
  end.

(** The paths of the directories that have at least one entry. *)
Fixpoint nonempty_dir_paths (dirpath : string) (e : entry) : list string :=
  match e with
  | FileE _ => []
  | DirE _ cs =>
      (match cs with [] => [] | _ => [dirpath] end) ++
      flat_map (fun c => nonempty_dir_paths (py_join dirpath (entry_name c)) c) cs
  end%list.

(* ------------------------------------------------------------------ *)
(** ** Exceptions of the interactive and reporting functions *)

(** Besides the exceptions of [exn], the functions below can raise
    [EOFError] ([input()] at the end of the standard input) and
    [OverflowError] ([int / int] whose quotient is too large for a
    float). *)
Inductive py_exn :=
  | Exn (e : exn)
  | EOFError
  | OverflowError.

Inductive pres (A : Type) :=
  | POk (a : A)
  | PRaise (e : py_exn).
Arguments POk {A} a.
Arguments PRaise {A} e.

Definition pres_bind {A B : Type} (m : pres A) (k : A -> pres B) : pres B :=
  match m with
  | POk a => k a
  | PRaise e => PRaise e
  end.

Notation "'let+' x ':=' m 'in' k" := (pres_bind m (fun x => k))
  (at level 200, x pattern, m at level 100, k at level 200).

Definition tab : ascii := ascii_of_nat 9.

(* ------------------------------------------------------------------ *)
(** ** [await_user_input] and [await_user_input_from_list_decision]

    The standard input is the list of the lines still to be read; the
    functions return their value with the lines left.  What they print is
    not modelled. *)

(** The values put in [allowed_answers]: the ints of [range(...)] or
    strings. *)
Inductive pyval :=
  | PInt (n : nat)
  | PStr (s : string).

Definition py_str (v : pyval) : string :=
  match v with
  | PInt n => py_str_nat n
  | PStr s => s
  end.

(** [while good_to_go != True:]; each round reads one line. *)
Fixpoint await_loop (allowed_answers : option (list pyval))
    (allowed_answers_str_list : list string) (inputs : list string)
  : pres (string * list string) :=
  match inputs with
  | [] => PRaise EOFError
  | inp :: rest =>
      match allowed_answers with
      | Some _ =>
          if existsb (String.eqb inp) allowed_answers_str_list then POk (inp, rest)
          else await_loop allowed_answers allowed_answers_str_list rest
      | None => POk (inp, rest)
      end
  end.

(** [await_user_input(message, allowed_answers)]; [message] is only
    printed. *)
Definition await_user_input (message : string) (allowed_answers : option (list pyval))
    (inputs : list string) : pres (string * list string) :=
  let allowed_answers_str_list :=
    match allowed_answers with
    | Some l => map py_str l
    | None => []
    end in
  await_loop allowed_answers allowed_answers_str_list inputs.

(** [sorted] on strings: Python orders strings by code points, as
    [String.compare] does; equal strings being identical, insertion sort
    gives the list of Python's stable sort. *)
Fixpoint insert_sorted (s : string) (l : list string) : list string :=
  match l with
  | [] => [s]
  | x :: l' =>
      match String.compare s x with
      | Gt => x :: insert_sorted s l'
      | _ => s :: l
      end
  end.

Fixpoint py_sorted (l : list string) : list string :=
  match l with
  | [] => []
  | x :: l' => insert_sorted x (py_sorted l')
  end.

(** [int(s)] on a string of decimal digits; [None]: [ValueError].  (Python
    also accepts signs, blanks and underscores; the only strings given to
    [int] here are [str] of indexes.) *)
Definition py_int (s : string) : option nat :=
  option_map Nat.of_uint (NilEmpty.uint_of_string s).

(** [await_user_input_from_list_decision(list_to_decide, header_message)];
    the caller passes the list of [os.listdir], so the [type(...) is not
    list] test is false. *)
Definition await_user_input_from_list_decision (list_to_decide : list string)
    (header_message : string) (inputs : list string)
  : pres (option string * list string) :=
  match list_to_decide with
  | [] => POk (None, inputs)
  | [x] => POk (Some x, inputs)
  | _ =>
      let indexes := map PInt (seq 0 (length list_to_decide)) in
      let sorted_list := py_sorted list_to_decide in
      let message_str :=
        fold_left
          (fun m idx => m ++ py_str_nat idx ++ String tab ": " ++
                        nth idx sorted_list "" ++ String newline "")
          (seq 0 (length list_to_decide)) (header_message ++ String newline "") in
      let message_str :=
        message_str ++ String newline "Select a number to choose a value:" ++
        String newline "" in
      let+ (user_input, rest) := await_user_input message_str (Some indexes) inputs in
      match py_int user_input with
      | None => PRaise (Exn ValueError)
      | Some i =>
          match nth_error sorted_list i with
          | None => PRaise (Exn IndexError)
          | Some d => POk (Some d, rest)
          end
      end
  end.

(* ------------------------------------------------------------------ *)
(** ** [initialize] *)

Section Initialize.

(** The loaded configuration, and the library calls [initialize] makes:
    [os.listdir] ([None]: it raises), reading a file ([None]: the [open] or
    [read] raised, which the [except:] turns into [txt = None]),
    [json.loads] ([None]: it raises a [ValueError]) and [json.dumps]. *)
Variable json : Type.
Variable listdir : string -> option (list string).
Variable read_file : string -> option string.
Variable json_loads : string -> option json.
Variable json_dumps : json -> string.

(** [initialize()] of [foto_organization_tool.py]. *)
Definition initialize (inputs : list string) : pres (option json * list string) :=
  let config_path := "configs/" in
  match listdir config_path with
  | None => PRaise (Exn OSError)
  | Some config_files_list =>
      let header_mes := "Following configuration files found:" in
      let+ (filename, inputs1) :=
        await_user_input_from_list_decision config_files_list header_mes inputs in
      match filename with
      | None => POk (None, inputs1)
      | Some filename =>
          let file_path := py_join config_path filename in
          match read_file file_path with
          | None => POk (None, inputs1)
          | Some txt =>
              match json_loads txt with
              | None => PRaise (Exn ValueError)
              | Some config =>
                  let config_approval_message :=
                    "Following configuration is loaded:" ++ String newline (String newline "") ++
                    json_dumps config ++ String newline (String newline "") ++
                    "Are you fine with that?" ++ String newline
                    "Please press 'y' for approval or 'n' to stop the programm and start again." ++
                    String newline "" in
                  let+ (user_approval, inputs2) :=
                    await_user_input config_approval_message (Some [PStr "y"; PStr "n"]) inputs1 in
                  if user_approval =? "n" then POk (None, inputs2)
                  else POk (Some config, inputs2)
              end
          end
      end
  end.

End Initialize.

(** [str.endswith(suffix)]. *)
Definition py_endswith (suffix s : string) : bool :=
  (String.length suffix <=? String.length s)%nat &&
  (substring (String.length s - String.length suffix) (String.length suffix) s =? suffix).

(* ------------------------------------------------------------------ *)
(** ** [format_bytes]

    The size is a Python int ([None] when [get_size_of_directory] found no
    directory).  The first [size /= power] is an int division that rounds
    to a float, and raises [OverflowError] when the rounded quotient is
    [2 ** 1024] or more; the quotient is exact up to [2 ** 63], and further
    divisions by [1024] are exact.  The model divides exactly: the
    quotients can only differ beyond [1024 ** 5], where [n] reaches [5] and
    the lookup in [power_labels] raises [KeyError] either way. *)

(** A number as returned by [format_bytes]: an int when the loop did not
    run, a float otherwise (the rational value it denotes). *)
Inductive pynum :=
  | PyInt (z : Z)
  | PyFloat (q : QArith_base.Q).

(** [power_labels[n]], [None]: [KeyError]. *)
Definition power_labels (n : nat) : option string :=
  match n with
  | 0 => Some ""
  | 1 => Some "kilo"
  | 2 => Some "mega"
  | 3 => Some "giga"
  | 4 => Some "tera"
  | _ => None
  end.

(** [while size > power: size /= power; n += 1] once [size] is a float;
    [fuel] bounds the rounds. *)
Fixpoint format_bytes_loop (fuel : nat) (size : QArith_base.Q) (n : nat)
  : QArith_base.Q * nat :=
  match fuel with
  | O => (size, n)
  | S fuel' =>
      if QArith_base.Qle_bool size (QArith_base.inject_Z 1024) then (size, n)
      else format_bytes_loop fuel' (QArith_base.Qdiv size (QArith_base.inject_Z 1024)) (S n)
  end.

(** [round(x, 3)] of a float: the decimal [k / 1000] nearest to the exact
    value of [x], ties to even (Python returns the float nearest to it,
    which prints as that decimal). *)
Definition round3 (x : QArith_base.Q) : QArith_base.Q :=
  let y := QArith_base.Qmult x (QArith_base.inject_Z 1000) in
  let a := QArith_base.Qnum y in
  let b := Zpos (QArith_base.Qden y) in
  let k := (a / b)%Z in
  let r := (a mod b)%Z in
  let k' :=
    match Z.compare (2 * r) b with
    | Lt => k
    | Gt => (k + 1)%Z
    | Eq => if Z.even k then k else (k + 1)%Z
    end in
  QArith_base.Qmake k' 1000.

(** The smallest int [size] for which [size / 1024] overflows. *)
Definition overflow_bound : Z := (1024 * (2 ^ 1024 - 2 ^ 970))%Z.

(** [format_bytes(size)] of [foto_organization_tool.py]: [(new_size, unit)].
    The loop makes at most [log2 size] rounds. *)
Definition format_bytes (size : option Z) : pres (pynum * string) :=
  match size with
  | None => PRaise (Exn TypeError) (* [None > power] *)
  | Some s =>
      let+ (new_size, n) :=
        if (s <=? 1024)%Z then POk (PyInt s, 0%nat) (* [round(int, 3)] is the int *)
        else if (overflow_bound <=? s)%Z then PRaise OverflowError
        else
          let '(q, n) :=
            format_bytes_loop (S (Z.to_nat (Z.log2 s)))
              (QArith_base.Qdiv (QArith_base.inject_Z s) (QArith_base.inject_Z 1024)) 1 in
          POk (PyFloat (round3 q), n) in
      match power_labels n with
      | Some label => POk (new_size, label ++ "bytes")
      | None => PRaise (Exn KeyError)
      end
  end.

Module Automatic.

(** [format_bytes(size)] of [automatic_foto_organization_tool.py]: the same
    body inside [try: ... except Exception: return None, None]. *)
Definition format_bytes (size : option Z) : option pynum * option string :=
  match format_bytes size with
  | POk (new_size, unit) => (Some new_size, Some unit)
  | PRaise _ => (None, None)
  end.

Section Initialize.

Variable json : Type.
Variable listdir : string -> option (list string).
Variable read_file : string -> option string.
Variable json_loads : string -> option json.

(** [initialize()] of [automatic_foto_organization_tool.py];
    [config_path] is [os.path.join(os.path.dirname(__file__), "configs/")].
    Without a [.json] file the loop never assigns [filename], and
    [os.path.join(config_path, filename)] raises [UnboundLocalError], a
    [NameError]. *)
Definition initialize (config_path : string) : pres (option json) :=
  match listdir config_path with
  | None => PRaise (Exn OSError)
  | Some config_files_list =>
      match find (fun file => py_endswith ".json" file) config_files_list with
      | None => PRaise (Exn NameError)
      | Some filename =>
          let file_path := py_join config_path filename in
          match read_file file_path with
          | None => POk None
          | Some txt =>
              match json_loads txt with
              | None => PRaise (Exn ValueError)
              | Some config => POk (Some config)
              end
          end
      end
  end.

End Initialize.

End Automatic.

(* ------------------------------------------------------------------ *)
(** ** Walking a directory tree: [get_all_files_from_source] and
    [get_size_of_directory]

    The tree found at the start path is an [entry] ([None]: nothing
    exists there).  [os.walk(top)] on a path that is not a directory
    yields nothing (its [scandir] error is ignored). *)

(** The paths of the files of a tree. *)
Fixpoint file_paths (dirpath : string) (e : entry) : list string :=
  match e with
  | FileE _ => [dirpath]
  | DirE _ cs => flat_map (fun c => file_paths (py_join dirpath (entry_name c)) c) cs
  end.

Module Tree.

Definition is_dir (e : entry) : bool :=
  match e with
  | DirE _ _ => true
  | FileE _ => false
  end.

(** The [dirnames] and [filenames] of [os.walk] for a listing. *)
Definition dirnames (cs : list entry) : list string :=
  map entry_name (filter is_dir cs).

Definition filenames (cs : list entry) : list string :=
  map entry_name (filter (fun c => negb (is_dir c)) cs).

(** The triples [(dirpath, dirnames, filenames)] of [os.walk(top,
    topdown=False)]: the subdirectories first, then the directory. *)
Fixpoint walk_bottom_up (dirpath : string) (e : entry)
  : list (string * list string * list string) :=
  match e with
  | FileE _ => []
  | DirE _ cs =>
      (flat_map (fun c => walk_bottom_up (py_join dirpath (entry_name c)) c) cs ++
       [(dirpath, dirnames cs, filenames cs)])%list
  end.

(** The same for [os.walk(top)]: the directory first. *)
Fixpoint walk_top_down (dirpath : string) (e : entry)
  : list (string * list string * list string) :=
  match e with
  | FileE _ => []
  | DirE _ cs =>
      (dirpath, dirnames cs, filenames cs) ::
      flat_map (fun c => walk_top_down (py_join dirpath (entry_name c)) c) cs
  end.

(** [os.path.isfile(p)] for the paths below [top]. *)
Definition isfile (top : string) (t : option entry) (p : string) : bool :=
  match t with
  | None => false
  | Some e => existsb (String.eqb p) (file_paths top e)
  end.

(** [get_all_files_from_source(src_path)] (the same in both scripts). *)
Definition get_all_files_from_source (src_path : string) (t : option entry) : list string :=
  let walk := match t with None => [] | Some e => walk_bottom_up src_path e end in
  let all_files_walk :=
    flat_map (fun '(root, dirs, files) =>
                (map (py_join root) files ++ map (py_join root) dirs)%list) walk in
  filter (isfile src_path t) all_files_walk.

(** [get_size_of_directory(start_path)] (the same in both scripts), with
    [os.path.getsize] of the files. *)
Definition get_size_of_directory (start_path : string) (t : option entry)
    (getsize : string -> nat) : option nat :=
  match t with
  | None => None
  | Some e =>
      Some (fold_left
              (fun total '(path, dirs, files) =>
                 fold_left (fun total f => total + getsize (py_join path f)) files total)
              (walk_top_down start_path e) 0)
  end.

End Tree.

(* ------------------------------------------------------------------ *)
(** ** Measures of directory trees *)

Fixpoint has_file (e : entry) : bool :=
  match e with
  | FileE _ => true
  | DirE _ cs => existsb has_file cs
  end.

Fixpoint height (e : entry) : nat :=
  match e with
  | FileE _ => 0
  | DirE _ cs => S (list_max (map height cs))
  end.

(** The paths of the directories with no file anywhere below them. *)
Fixpoint dirs_without_files (dirpath : string) (e : entry) : list string :=
  match e with
  | FileE _ => []
  | DirE _ cs =>
      ((if has_file e then [] else [dirpath]) ++
       flat_map (fun c => dirs_without_files (py_join dirpath (entry_name c)) c) cs)%list
  end.

(** The same for the directories strictly below the root [t]. *)
Definition subdirs_without_files (directory : string) (t : entry) : list string :=
  match t with
  | FileE _ => []
  | DirE _ cs => flat_map (fun c => dirs_without_files (py_join directory (entry_name c)) c) cs
  end.

(** File and directory names are nonempty and hold no ['/']. *)
Definition valid_name (n : string) : bool :=
  negb (n =? "") && negb (has_char "/" n).

Fixpoint names_ok (e : entry) : bool :=
  match e with
  | FileE n => valid_name n
  | DirE n cs => valid_name n && forallb names_ok cs
  end.

(* ------------------------------------------------------------------ *)
(** ** Orders and measures used by the proofs *)

(** The order of [sorted] on strings: code points, compared from the left. *)
Definition str_le (a b : string) : Prop := String.compare a b <> Gt.

(** How many more walks a tree needs: a directory with no file goes after
    [height] walks; one with a file stays, and its subdirectories need what
    they need. *)
Fixpoint removal_depth (e : entry) : nat :=
  match e with
  | FileE _ => 0
  | DirE _ cs => if has_file e then list_max (map removal_depth cs) else height e
  end.

Definition walk_step (directory dirpath : string) (c : entry) : list entry :=
  match walk_pass directory (py_join dirpath (entry_name c)) c with
  | Some c' => [c']
  | None => []
  end.

(* ------------------------------------------------------------------ *)
(** ** Concrete environments used by the examples *)

(** A run in which [/src/photo.jpg] is a JPEG whose EXIF [DateTime] is
    [2021:05:03 10:15:00] (PIL reports the format of a JPEG file as
    [JPEG]), [strptime] parses that string, every move succeeds, and any
    other file cannot be opened as an image. *)
Definition scenario_env : env :=
  mk_env
    (fun p => if p =? "/src/photo.jpg"
              then Some (mk_pil_image "JPEG" (Some [("DateTime", "2021:05:03 10:15:00")]))
              else None)
    (fun s => if s =? "2021:05:03 10:15:00" then Some (mk_datetime 2021 5 3 10 15 0)
              else None)
    (fun _ _ => true).

Definition scenario_config : config := mk_config "/dst" "True".

(** A destination holding [a.jpg] and a copy [a_Kopie(1).jpg] of the same
    size. *)
Definition duplicate_store : store :=
  [("/dst/a.jpg", 5); ("/dst/a_Kopie(1).jpg", 5)].

(* ================================================================== *)
(** * Proofs *)

Example create_dst_path_for_file_ex1 :
  create_dst_path_for_file ["/d"; "/d/a.jpg"; "/d/a_Kopie(1).jpg"] "/d" "a" "JPG"
  = (["/d"; "/d/a.jpg"; "/d/a_Kopie(1).jpg"], Some "/d/a_Kopie(2).jpg").
Proof. reflexivity. Qed.

Example create_dst_path_for_file_ex2 :
  create_dst_path_for_file [] "/d/x" "a" "png"
  = (["/d"; "/d/x"], Some "/d/x/a.png").
Proof. reflexivity. Qed.

(* ------------------------------------------------------------------ *)
(** ** String lemmas *)

Lemma string_app_inv_head (s a b : string) : s ++ a = s ++ b -> a = b.
Proof. induction s as [|c s IH]; simpl; [auto|]. intros H; injection H; auto. Qed.

Lemma string_length_app (a b : string) :
  String.length (a ++ b) = String.length a + String.length b.
Proof. induction a as [|c a IH]; simpl; auto. Qed.

Lemma string_app_inv_tail (s a b : string) : a ++ s = b ++ s -> a = b.
Proof.
  revert b. induction a as [|c a IH]; intros [|d b] H; simpl in H; auto.
  - apply (f_equal String.length) in H. simpl in H.
    rewrite string_length_app in H. lia.
  - apply (f_equal String.length) in H. simpl in H.
    rewrite string_length_app in H. lia.
  - injection H as -> H. f_equal. auto.
Qed.

Lemma py_str_nat_inj (n m : nat) : py_str_nat n = py_str_nat m -> n = m.
Proof.
  unfold py_str_nat. intros H.
  apply (f_equal NilEmpty.uint_of_string) in H. rewrite !NilEmpty.usu in H.
  injection H as H. apply DecimalNat.Unsigned.to_uint_inj. exact H.
Qed.

Lemma path_exists_In (f : fs) (p : string) : path_exists f p = true <-> In p f.
Proof.
  unfold path_exists. rewrite existsb_exists. split.
  - intros (x & Hx & E). apply String.eqb_eq in E. subst. exact Hx.
  - intros H. exists p. split; [exact H | apply String.eqb_refl].
Qed.

(* ------------------------------------------------------------------ *)
(** ** The resolver *)

Lemma kopie_name_inj (n e : string) (i j : nat) :
  kopie_name n i e = kopie_name n j e -> i = j.
Proof.
  unfold kopie_name. intros H.
  apply string_app_inv_head, string_app_inv_head, string_app_inv_tail in H.
  apply py_str_nat_inj, H.
Qed.

Lemma starts_with_slash_kopie (n e : string) (i j : nat) :
  starts_with_slash (kopie_name n i e) = starts_with_slash (kopie_name n j e).
Proof. unfold kopie_name. destruct n as [|c n]; reflexivity. Qed.

Lemma py_join_inj (a b1 b2 : string) :
  starts_with_slash b1 = starts_with_slash b2 ->
  py_join a b1 = py_join a b2 -> b1 = b2.
Proof.
  unfold py_join. intros Hs. rewrite Hs.
  destruct (starts_with_slash b2); [auto|].
  destruct ((a =? "") || ends_with_slash a); intros H.
  - exact (string_app_inv_head _ _ _ H).
  - exact (string_app_inv_head _ _ _ (string_app_inv_head _ _ _ H)).
Qed.

Lemma kopie_path_inj (base n e : string) (i j : nat) :
  py_join base (kopie_name n i e) = py_join base (kopie_name n j e) -> i = j.
Proof.
  intros H. apply py_join_inj in H; [|apply starts_with_slash_kopie].
  exact (kopie_name_inj _ _ _ _ H).
Qed.

Lemma probe_some (f : fs) (base n e : string) (fuel i : nat) (p : string) :
  probe f base n e fuel i = Some p ->
  exists j, i <= j /\ p = py_join base (kopie_name n j e) /\
    path_exists f p = false /\
    (forall m, i <= m < j -> path_exists f (py_join base (kopie_name n m e)) = true).
Proof.
  revert i. induction fuel as [|fuel IH]; intros i H; simpl in H; [discriminate|].
  destruct (path_exists f (py_join base (kopie_name n i e))) eqn:E; simpl in H.
  - destruct (IH (S i) H) as (j & Hj & -> & Hf & Hlt).
    exists j. repeat split; auto; [lia|].
    intros m Hm. destruct (Nat.eq_dec m i) as [->|Hne]; [exact E|].
    apply Hlt. lia.
  - injection H as <-. exists i. repeat split; auto. intros m Hm. lia.
Qed.

Lemma probe_none (f : fs) (base n e : string) (fuel i : nat) :
  probe f base n e fuel i = None ->
  forall m, i <= m < i + fuel -> path_exists f (py_join base (kopie_name n m e)) = true.
Proof.
  revert i. induction fuel as [|fuel IH]; intros i H m Hm; [lia|].
  simpl in H.
  destruct (path_exists f (py_join base (kopie_name n i e))) eqn:E; simpl in H;
    [|discriminate].
  destruct (Nat.eq_dec m i) as [->|Hne]; [exact E|].
  apply (IH (S i) H). lia.
Qed.

(** One more probe than there are existing paths always finds a free
    name: the probed names are pairwise distinct. *)
Lemma probe_total (f : fs) (base n e : string) :
  probe f base n e (S (length f)) 1 <> None.
Proof.
  intros H.
  pose proof (probe_none _ _ _ _ _ _ H) as Hall.
  set (L := map (fun m => py_join base (kopie_name n m e)) (seq 1 (S (length f)))).
  assert (HN : NoDup L).
  { apply Injective_map_NoDup; [|apply seq_NoDup].
    intros x y. apply kopie_path_inj. }
  assert (HI : incl L f).
  { intros p Hp. unfold L in Hp. apply in_map_iff in Hp as (m & <- & Hm).
    apply in_seq in Hm. apply path_exists_In, Hall. lia. }
  pose proof (NoDup_incl_length HN HI) as Hlen.
  unfold L in Hlen. rewrite length_map, length_seq in Hlen. lia.
Qed.

Lemma makedirs_incl (f : fs) (name : string) :
  incl f (makedirs f name) /\ In name (makedirs f name).
Proof.
  unfold makedirs. split.
  - intros x Hx. apply in_or_app. left. exact Hx.
  - destruct (path_exists f name) eqn:E.
    + apply in_or_app. left. apply path_exists_In, E.
    + apply in_or_app. right. apply filter_In. split.
      * apply in_or_app. right. left. reflexivity.
      * rewrite E. reflexivity.
Qed.

(** Claim C1: [create_dst_path_for_file] always creates [base_path] (with
    its parents) if it is absent and keeps every existing path, always
    returns a path that does not exist; and when [base_path/filename.ext]
    (extension lower-cased) already exists, the returned path is
    [base_path/filename_Kopie(i).ext] for the smallest [i >= 1] whose name is
    free, every index below [i] being probed and found taken. *)
Theorem create_dst_path_for_file_first_free (f : fs) (base_path filename extension : string) :
  let '(f1, r) := create_dst_path_for_file f base_path filename extension in
  In base_path f1 /\ incl f f1 /\
  (path_exists f base_path = true -> f1 = f) /\
  (exists p, r = Some p /\ path_exists f1 p = false) /\
  (path_exists f (py_join base_path (filename ++ "." ++ py_lower extension)) = true ->
   exists i, 1 <= i /\
     r = Some (py_join base_path (kopie_name filename i (py_lower extension))) /\
     forall j, 1 <= j < i ->
       path_exists f1 (py_join base_path (kopie_name filename j (py_lower extension))) = true).
Proof.
  unfold create_dst_path_for_file.
  set (f1 := if negb (path_exists f base_path) then makedirs f base_path else f).
  assert (Hbase : In base_path f1 /\ incl f f1 /\ (path_exists f base_path = true -> f1 = f)).
  { unfold f1. destruct (path_exists f base_path) eqn:E; simpl.
    - split; [apply path_exists_In, E|]. split; [apply incl_refl|auto].
    - destruct (makedirs_incl f base_path) as [H1 H2].
      split; [exact H2|]. split; [exact H1|discriminate]. }
  destruct Hbase as (Hb & Hinc & Hsame).
  destruct (path_exists f1 (py_join base_path (filename ++ "." ++ py_lower extension))) eqn:E.
  - destruct (probe f1 base_path filename (py_lower extension) (S (length f1)) 1) as [p|] eqn:P;
      [|exfalso; exact (probe_total _ _ _ _ P)].
    destruct (probe_some _ _ _ _ _ _ _ P) as (i & Hi & -> & Hfree & Hlt).
    repeat split; auto.
    + eexists; split; [reflexivity|exact Hfree].
    + intros _. exists i. repeat split; auto.
  - repeat split; auto.
    + eexists; split; [reflexivity|exact E].
    + intros H. apply path_exists_In in H. apply Hinc, path_exists_In in H.
      rewrite H in E. discriminate.
Qed.

Lemma create_dst_path_for_file_first_free_witness :
  path_exists ["/d"; "/d/a.jpg"; "/d/a_Kopie(1).jpg"] (py_join "/d" ("a" ++ "." ++ py_lower "JPG")) = true /\
  exists i, 1 <= i /\
    snd (create_dst_path_for_file ["/d"; "/d/a.jpg"; "/d/a_Kopie(1).jpg"] "/d" "a" "JPG")
    = Some (py_join "/d" (kopie_name "a" i (py_lower "JPG"))).
Proof.
  split; [reflexivity|].
  pose proof (create_dst_path_for_file_first_free ["/d"; "/d/a.jpg"; "/d/a_Kopie(1).jpg"] "/d" "a" "JPG") as H.
  destruct (create_dst_path_for_file ["/d"; "/d/a.jpg"; "/d/a_Kopie(1).jpg"] "/d" "a" "JPG") as [f1 r] eqn:E.
  destruct H as (_ & _ & _ & _ & H).
  destruct (H eq_refl) as (i & Hi & Hr & _). exists i. split; [exact Hi|exact Hr].
Defined.


Example filter_files_with_regex_ex :
  filter_files_with_regex ["/p/a.jpg"; "/p/b.Jpg"; "/p/c.jpg.txt"; "/p/.jpg"; "/p/d.JPEG"; "/p/e"; "/p/..png"]
  = (["/p/a.jpg"; "/p/c.jpg.txt"; "/p/..png"], ["/p/b.Jpg"; "/p/.jpg"; "/p/d.JPEG"; "/p/e"]).
Proof. reflexivity. Qed.

Example finditer_last_newline_ex :
  finditer_last ("a" ++ String newline ".jpg") = Some ("", "jpg").
Proof. reflexivity. Qed.

(* ------------------------------------------------------------------ *)
(** ** The regex *)

Lemma string_app_assoc (a b c : string) : (a ++ b) ++ c = a ++ (b ++ c).
Proof. induction a as [|x a IH]; simpl; congruence. Qed.

Lemma string_app_nil_r (a : string) : a ++ "" = a.
Proof. induction a as [|x a IH]; simpl; congruence. Qed.

Lemma prefix_app (a r : string) : String.prefix a (a ++ r) = true.
Proof.
  induction a as [|c a IH]; simpl; [destruct r; reflexivity|].
  destruct (ascii_dec c c) as [_|N]; [exact IH|contradiction].
Qed.

Lemma prefix_drop (a r : string) :
  String.prefix a r = true -> r = a ++ str_drop (String.length a) r.
Proof.
  revert r. induction a as [|c a IH]; intros r H; simpl; [reflexivity|].
  destruct r as [|d r]; simpl in H; [discriminate|].
  destruct (ascii_dec c d) as [->|N]; [|discriminate].
  f_equal. apply IH, H.
Qed.

Lemma regex_extensions_nonempty (a : string) : In a regex_extensions -> a <> "".
Proof. simpl. intros H; repeat destruct H as [<-|H]; try discriminate; contradiction. Qed.

Lemma match_dot_ext_decomp (s a rest : string) :
  match_dot_ext s = Some (a, rest) -> s = "." ++ a ++ rest /\ In a regex_extensions.
Proof.
  unfold match_dot_ext, match_extension.
  destruct s as [|c r]; [discriminate|].
  destruct (ascii_dec c ".") as [->|N].
  - destruct (find (fun a0 => String.prefix a0 r) regex_extensions) as [a0|] eqn:F;
      [|discriminate].
    intros H; injection H as <- <-.
    apply find_some in F as [Hin Hp].
    split; [|exact Hin]. simpl. f_equal. apply prefix_drop, Hp.
  - destruct c as [[] [] [] [] [] [] [] []]; try discriminate;
      exfalso; apply N; reflexivity.
Qed.

Lemma match_at_decomp (s fn a rest : string) :
  match_at s = Some (fn, a, rest) ->
  s = fn ++ "." ++ a ++ rest /\ In a regex_extensions.
Proof.
  revert fn. induction s as [|c s IH]; intros fn H; simpl in H; [discriminate|].
  assert (Hhere : match match_dot_ext (String c s) with
                  | Some (a, rest) => Some ("", a, rest) | None => None end
                  = Some (fn, a, rest) -> String c s = fn ++ "." ++ a ++ rest /\ In a regex_extensions).
  { destruct (match_dot_ext (String c s)) as [[a0 r0]|] eqn:E; [|discriminate].
    intros Hs; injection Hs as <- <- <-. apply match_dot_ext_decomp, E. }
  destruct ((c =? newline)%char); [exact (Hhere H)|].
  destruct (match_at s) as [[[fn' a'] r']|] eqn:E; [|exact (Hhere H)].
  injection H as <- <- <-. destruct (IH fn' eq_refl) as [-> Hin]. split; auto.
Qed.

Lemma match_at_complete (p a r : string) :
  has_char newline (p ++ "." ++ a ++ r) = false -> In a regex_extensions ->
  match_at (p ++ "." ++ a ++ r) <> None.
Proof.
  intros Hn Hin. induction p as [|c p IH]; cbn [append] in *; simpl match_at.
  - destruct (match_at (a ++ r)) as [[[x y] z]|]; [discriminate|].
    unfold match_dot_ext, match_extension.
    destruct (find (fun a0 => String.prefix a0 (a ++ r)) regex_extensions) eqn:F;
      [discriminate|].
    apply (find_none _ _ F) in Hin. rewrite prefix_app in Hin. discriminate.
  - apply orb_false_iff in Hn as [Hc Hn].
    rewrite Hc.
    destruct (match_at (p ++ String "." (a ++ r))) as [[[x y] z]|]; [discriminate|].
    exfalso. apply IH; auto.
Qed.

(** The greedy [.*]: the filename group of a match that starts at the
    beginning of a newline-free string is the longest possible one. *)
Lemma match_at_greedy (s fn a rest : string) :
  has_char newline s = false ->
  match_at s = Some (fn, a, rest) ->
  forall p a' r', s = p ++ "." ++ a' ++ r' -> In a' regex_extensions ->
  String.length p <= String.length fn.
Proof.
  revert fn. induction s as [|c s IH]; intros fn Hn H p a' r' Hs Hin;
    simpl in H; [discriminate|].
  simpl in Hn. apply orb_false_iff in Hn as [Hc Hn].
  rewrite Hc in H.
  destruct (match_at s) as [[[fn' a0] r0]|] eqn:E.
  - injection H as <- <- <-. destruct p as [|d p]; simpl; [lia|].
    injection Hs as -> Hs. apply le_n_S. exact (IH fn' Hn eq_refl p a' r' Hs Hin).
  - destruct p as [|d p]; [simpl; lia|].
    injection Hs as -> Hs. subst s. exfalso.
    exact (match_at_complete p a' r' Hn Hin E).
Qed.

Lemma regex_search_eq (s : string) :
  regex_search s =
  match match_at s with
  | Some m => Some m
  | None => match s with EmptyString => None | String _ s' => regex_search s' end
  end.
Proof. destruct s; reflexivity. Qed.

Lemma regex_search_decomp (s fn a rest : string) :
  regex_search s = Some (fn, a, rest) ->
  exists q, s = q ++ fn ++ "." ++ a ++ rest /\ In a regex_extensions.
Proof.
  induction s as [|c s IH]; rewrite regex_search_eq; intros H.
  - discriminate.
  - destruct (match_at (String c s)) as [m|] eqn:E.
    + injection H as ->. exists "". simpl. exact (match_at_decomp _ _ _ _ E).
    + destruct (IH H) as (q & -> & Hin). exists (String c q). split; [reflexivity|exact Hin].
Qed.

Lemma regex_search_none (s : string) :
  (forall p a r, s = p ++ "." ++ a ++ r -> In a regex_extensions -> False) ->
  regex_search s = None.
Proof.
  induction s as [|c s IH]; intros Hno; rewrite regex_search_eq.
  - reflexivity.
  - destruct (match_at (String c s)) as [[[fn a] rest]|] eqn:E.
    + destruct (match_at_decomp _ _ _ _ E) as [Hs Hin]. exfalso. exact (Hno _ _ _ Hs Hin).
    + apply IH. intros p a r Hs Hin. apply (Hno (String c p) a r); [|exact Hin].
      simpl. rewrite Hs. reflexivity.
Qed.

Lemma finditer_last_go_decomp (fuel : nat) (s : string) (last : option (string * string))
    (fn a : string) :
  finditer_last_go fuel s last = Some (fn, a) ->
  last = Some (fn, a) \/
  exists q rest, s = q ++ fn ++ "." ++ a ++ rest /\ In a regex_extensions.
Proof.
  revert s last. induction fuel as [|fuel IH]; intros s last H; simpl in H; [auto|].
  destruct (regex_search s) as [[[fn' a'] rest']|] eqn:E; [|auto].
  destruct (regex_search_decomp _ _ _ _ E) as (q & Hs & Hin).
  destruct (IH _ _ H) as [Hl|(q' & r & Hr & Hin')].
  - injection Hl as <- <-. right. exists q, rest'. auto.
  - right. exists (q ++ fn' ++ "." ++ a' ++ q'), r. split; [|exact Hin'].
    rewrite Hs, Hr. rewrite !string_app_assoc. reflexivity.
Qed.

(** More rounds than [String.length s + 1] do not change the result of the
    [finditer] loop. *)
Lemma finditer_last_fuel (n : nat) (s : string) (last : option (string * string)) :
  S (String.length s) <= n -> finditer_last_go n s last = finditer_last_go (S n) s last.
Proof.
  revert s last. induction n as [|n IH]; intros s last Hn; [lia|].
  cbn [finditer_last_go].
  destruct (regex_search s) as [[[fn a] rest]|] eqn:E; [|reflexivity].
  apply IH.
  destruct (regex_search_decomp _ _ _ _ E) as (q & Hs & Hin).
  apply regex_extensions_nonempty in Hin.
  apply (f_equal String.length) in Hs. rewrite !string_length_app in Hs.
  simpl in Hs. destruct a; [contradiction|]. simpl in Hs. lia.
Qed.

Lemma has_char_app_here (c : ascii) (x y : string) : has_char c (x ++ String c y) = true.
Proof.
  induction x as [|d x IH]; simpl.
  - rewrite Ascii.eqb_refl. reflexivity.
  - rewrite IH. apply orb_true_r.
Qed.

(** The filename group of the last match sits right before a dot and an
    extension of the pattern. *)
Lemma is_image_file_decomp (file : string) :
  is_image_file file = true ->
  exists p a r, py_basename file = p ++ "." ++ a ++ r /\ p <> "" /\ In a regex_extensions.
Proof.
  unfold is_image_file, finditer_last.
  destruct (finditer_last_go _ (py_basename file) None) as [[fn a]|] eqn:E; [|discriminate].
  intros H. apply andb_true_iff in H as [Hfn _].
  destruct (finditer_last_go_decomp _ _ _ _ _ E) as [Hl|(q & rest & Hs & Hin)];
    [discriminate|].
  exists (q ++ fn), a, rest. repeat split; [|intros Hq|exact Hin].
  - rewrite Hs, string_app_assoc. reflexivity.
  - apply (f_equal String.length) in Hq. rewrite string_length_app in Hq.
    destruct fn; [discriminate|]. simpl in Hq. lia.
Qed.

Lemma is_image_file_of_decomp (file : string) :
  has_char newline (py_basename file) = false ->
  (exists p a r, py_basename file = p ++ "." ++ a ++ r /\ p <> "" /\ In a regex_extensions) ->
  is_image_file file = true.
Proof.
  intros Hn (p & a & r & Hs & Hp & Hin).
  unfold is_image_file, finditer_last.
  set (s := py_basename file) in *.
  destruct (match_at s) as [[[fn a0] rest]|] eqn:E;
    [|exfalso; rewrite Hs in Hn, E; exact (match_at_complete p a r Hn Hin E)].
  pose proof (match_at_greedy _ _ _ _ Hn E p a r Hs Hin) as Hg.
  destruct (match_at_decomp _ _ _ _ E) as [Hs0 Hin0].
  assert (Hsearch : regex_search s = Some (fn, a0, rest)).
  { rewrite regex_search_eq, E. reflexivity. }
  assert (Hnone : regex_search rest = None).
  { apply regex_search_none. intros p' a' r' Hr Hin'.
    pose proof (match_at_greedy _ _ _ _ Hn E (fn ++ "." ++ a0 ++ p') a' r') as G.
    rewrite Hs0, Hr in G. rewrite !string_app_assoc in G.
    specialize (G eq_refl Hin'). rewrite !string_length_app in G. simpl in G. lia. }
  cbn [finditer_last_go]. rewrite Hsearch.
  destruct (String.length s) as [|n]; cbn [finditer_last_go]; [|rewrite Hnone];
    (apply andb_true_iff; split; apply negb_true_iff, String.eqb_neq;
     [ intros ->; destruct p; [contradiction|simpl in Hg; lia]
     | apply regex_extensions_nonempty, Hin0 ]).
Qed.

Lemma filter_files_with_regex_filter (files_list : list string) :
  filter_files_with_regex files_list =
  (filter is_image_file files_list, filter (fun f => negb (is_image_file f)) files_list).
Proof.
  induction files_list as [|file rest IH]; simpl; [reflexivity|].
  rewrite IH. destruct (is_image_file file); reflexivity.
Qed.

Lemma filter_files_with_regex_lengths (files_list : list string) :
  length (fst (filter_files_with_regex files_list)) +
  length (snd (filter_files_with_regex files_list)) = length files_list.
Proof.
  induction files_list as [|file rest IH]; simpl; [reflexivity|].
  destruct (filter_files_with_regex rest) as [i o]. simpl in *.
  destruct (is_image_file file); simpl; lia.
Qed.

(** Claim C2, counterexample: [b.Jpg] has the image extension [jpg] after
    its final dot (compared case-insensitively) but goes to [others];
    [d.JPEG] likewise; [c.jpg.txt] ends in [txt] but goes to [imgs]. *)
Lemma filter_files_with_regex_not_final_extension :
  (spec_is_image "/p/b.Jpg" = true /\
   fst (filter_files_with_regex ["/p/b.Jpg"]) = []) /\
  (spec_is_image "/p/d.JPEG" = true /\
   fst (filter_files_with_regex ["/p/d.JPEG"]) = []) /\
  (spec_is_image "/p/c.jpg.txt" = false /\
   fst (filter_files_with_regex ["/p/c.jpg.txt"]) = ["/p/c.jpg.txt"]).
Proof. vm_compute. repeat split. Qed.

(** Claim C2, as the code does it: [filter_files_with_regex] performs no
    file system access, keeps the order, puts every path in exactly one of
    the two lists (so the lengths add up), and, for a file name without a
    line break, puts the path in [imgs] exactly when its file name contains
    a dot preceded by at least one character and followed (anywhere, not
    necessarily at the end) by one of the case-sensitive spellings JPG, jpg,
    jpeg, PNG, png, tiff, tif, TIF, BMP, bmp. *)
Theorem filter_files_with_regex_partition (files_list : list string) :
  let '(imgs, others) := filter_files_with_regex files_list in
  length imgs + length others = length files_list /\
  imgs = filter is_image_file files_list /\
  others = filter (fun f => negb (is_image_file f)) files_list /\
  (forall file, has_char newline (py_basename file) = false ->
     (In file imgs <-> In file files_list /\
        exists p a r, py_basename file = p ++ "." ++ a ++ r /\ p <> "" /\
                      In a regex_extensions)).
Proof.
  pose proof (filter_files_with_regex_lengths files_list) as Hlen.
  rewrite filter_files_with_regex_filter in *. simpl in Hlen.
  split; [exact Hlen|]. split; [reflexivity|]. split; [reflexivity|].
  intros file H. split.
  - intros Hin. apply filter_In in Hin as [Hin Hi].
    split; [exact Hin|exact (is_image_file_decomp _ Hi)].
  - intros [Hin Hd]. apply filter_In. split; [exact Hin|].
    exact (is_image_file_of_decomp _ H Hd).
Qed.

Lemma filter_files_with_regex_partition_witness :
  has_char newline (py_basename "/p/c.jpg.txt") = false /\
  In "/p/c.jpg.txt" (fst (filter_files_with_regex ["/p/c.jpg.txt"; "/p/e"])).
Proof.
  split; [reflexivity|].
  pose proof (filter_files_with_regex_partition ["/p/c.jpg.txt"; "/p/e"]) as H.
  destruct (filter_files_with_regex ["/p/c.jpg.txt"; "/p/e"]) as [imgs others] eqn:E.
  destruct H as (_ & _ & _ & H). simpl fst.
  apply (H "/p/c.jpg.txt" eq_refl). split; [left; reflexivity|].
  exists "c", "jpg", ".txt". split; [reflexivity|]. split; [discriminate|].
  simpl; tauto.
Defined.

(** Claim C10: a file whose name is a dot followed by text without another
    dot (such as [.jpg]) is always put in [others], also when the text is
    an image extension of the pattern: the filename group is then empty. *)
Theorem filter_files_with_regex_dotfile_other (files_list : list string) (file r : string) :
  In file files_list -> py_basename file = String "." r -> has_char "." r = false ->
  In file (snd (filter_files_with_regex files_list)) /\
  ~ In file (fst (filter_files_with_regex files_list)).
Proof.
  intros Hin Hb Hr.
  assert (Hf : is_image_file file = false).
  { destruct (is_image_file file) eqn:E; [|reflexivity]. exfalso.
    destruct (is_image_file_decomp _ E) as (p & a & x & Hs & Hp & _).
    rewrite Hb in Hs. destruct p as [|c p]; [contradiction|].
    injection Hs as _ Hs. rewrite Hs, has_char_app_here in Hr. discriminate. }
  rewrite filter_files_with_regex_filter. simpl. split.
  - apply filter_In. rewrite Hf. auto.
  - intros H. apply filter_In in H as [_ H]. rewrite Hf in H. discriminate.
Qed.

Lemma filter_files_with_regex_dotfile_other_witness :
  In "/p/.jpg" (snd (filter_files_with_regex ["/p/.jpg"])) /\
  ~ In "/p/.jpg" (fst (filter_files_with_regex ["/p/.jpg"])).
Proof.
  apply (filter_files_with_regex_dotfile_other ["/p/.jpg"] "/p/.jpg" "jpg");
    [left; reflexivity|reflexivity|reflexivity].
Defined.

(* ------------------------------------------------------------------ *)
(** ** The moving loops *)

Lemma parent_dirs_go_length (acc s d : string) :
  In d (parent_dirs_go acc s) -> String.length d <= String.length acc + String.length s.
Proof.
  revert acc. induction s as [|c s IH]; intros acc H; simpl in H; [contradiction|].
  assert (Hr : In d (parent_dirs_go (acc ++ String c EmptyString) s) ->
               String.length d <= String.length acc + String.length (String c s)).
  { intros Hd. apply IH in Hd. rewrite string_length_app in Hd. simpl in *. lia. }
  destruct ((c =? "/")%char && negb (acc =? "")); [destruct H as [<-|H]|]; simpl; auto; lia.
Qed.

Lemma makedirs_new_short (f : fs) (base d : string) :
  In d (makedirs f base) -> In d f \/ String.length d <= String.length base.
Proof.
  unfold makedirs. intros H. apply in_app_or in H as [H|H]; [auto|right].
  apply filter_In in H as [H _]. apply in_app_or in H as [H|[<-|[]]]; [|lia].
  apply parent_dirs_go_length in H. simpl in H. exact H.
Qed.

Lemma py_join_longer (base name : string) :
  starts_with_slash name = false -> name <> "" ->
  String.length base < String.length (py_join base name).
Proof.
  intros Hs Hn. unfold py_join. rewrite Hs.
  destruct name as [|c name]; [contradiction|].
  destruct ((base =? "") || ends_with_slash base); rewrite !string_length_app; simpl; lia.
Qed.

Lemma makedirs_keeps_absent (f : fs) (base_path name : string) :
  starts_with_slash name = false -> name <> "" ->
  path_exists f (py_join base_path name) = false ->
  path_exists (if negb (path_exists f base_path) then makedirs f base_path else f)
    (py_join base_path name) = false.
Proof.
  intros Hs Hn Hf.
  pose proof (py_join_longer base_path name Hs Hn) as Hlong.
  destruct (path_exists f base_path); simpl; [exact Hf|].
  destruct (path_exists (makedirs f base_path) (py_join base_path name)) eqn:E; [|reflexivity].
  apply path_exists_In, makedirs_new_short in E as [E|E].
  - apply path_exists_In in E. congruence.
  - lia.
Qed.

Lemma filename_dot_not_absolute (filename ext : string) :
  starts_with_slash filename = false -> starts_with_slash (filename ++ "." ++ ext) = false.
Proof. destruct filename; [reflexivity|exact (fun H => H)]. Qed.

Lemma filename_dot_nonempty (filename ext : string) : filename ++ "." ++ ext <> "".
Proof. destruct filename; discriminate. Qed.

(** Without a collision the resolver returns [base_path/filename.ext]. *)
Lemma create_dst_path_for_file_no_collision (f : fs) (base_path filename extension : string) :
  starts_with_slash filename = false ->
  path_exists f (py_join base_path (filename ++ "." ++ py_lower extension)) = false ->
  snd (create_dst_path_for_file f base_path filename extension) =
  Some (py_join base_path (filename ++ "." ++ py_lower extension)).
Proof.
  intros Hs Hf. unfold create_dst_path_for_file.
  rewrite (makedirs_keeps_absent f base_path _ (filename_dot_not_absolute _ _ Hs)
             (filename_dot_nonempty _ _) Hf).
  reflexivity.
Qed.

Lemma lower_char_idem (c : ascii) : lower_char (lower_char c) = lower_char c.
Proof. destruct c as [[] [] [] [] [] [] [] []]; reflexivity. Qed.

Lemma py_lower_idem (s : string) : py_lower (py_lower s) = py_lower s.
Proof. induction s as [|c s IH]; simpl; [reflexivity|]. rewrite lower_char_idem, IH. reflexivity. Qed.

Lemma in_fs_move (f : fs) (src dst : string) : In dst (fs_move f src dst).
Proof. unfold fs_move. apply in_or_app. right. left. reflexivity. Qed.

Lemma no_slash_not_absolute (x : string) :
  has_char "/" x = false -> starts_with_slash x = false.
Proof.
  destruct x as [|c x]; [reflexivity|]. simpl. intros H.
  apply orb_false_iff in H as [H _].
  destruct (ascii_dec c "/") as [->|N]; [discriminate|].
  destruct c as [[] [] [] [] [] [] [] []]; try reflexivity; exfalso; apply N; reflexivity.
Qed.

Lemma has_char_snoc (c d : ascii) (cur : string) :
  has_char c cur = false -> (d =? c)%char = false ->
  has_char c (cur ++ String d EmptyString) = false.
Proof.
  intros H Hd. induction cur as [|e cur IH]; simpl in *.
  - rewrite Hd. reflexivity.
  - apply orb_false_iff in H as [H1 H2]. rewrite H1, IH; auto.
Qed.

Lemma basename_go_no_slash (acc s : string) :
  has_char "/" acc = false -> has_char "/" (basename_go acc s) = false.
Proof.
  revert acc. induction s as [|c s IH]; intros acc H; simpl; [exact H|].
  destruct ((c =? "/")%char) eqn:E; apply IH; [reflexivity|].
  apply has_char_snoc; assumption.
Qed.

Lemma split_dot_go_head_no_slash (cur s : string) :
  has_char "/" cur = false -> has_char "/" s = false ->
  forall x rest, split_dot_go cur s = x :: rest -> starts_with_slash x = false.
Proof.
  revert cur. induction s as [|c s IH]; intros cur Hc Hs x rest H; simpl in H.
  - injection H as Hx _. subst x. apply no_slash_not_absolute, Hc.
  - simpl in Hs. apply orb_false_iff in Hs as [Hc1 Hs].
    destruct ((c =? ".")%char).
    + injection H as Hx _. subst x. apply no_slash_not_absolute, Hc.
    + exact (IH _ (has_char_snoc _ _ _ Hc Hc1) Hs x rest H).
Qed.

Lemma py_split_dot_basename_head (file x : string) (rest : list string) :
  py_split_dot (py_basename file) = x :: rest -> starts_with_slash x = false.
Proof.
  apply split_dot_go_head_no_slash; [reflexivity|].
  apply basename_go_no_slash. reflexivity.
Qed.

(** Claim C3 (a per-file failure never aborts the batch) fails on the
    image loop: when the first image cannot be opened, the [except:] branch
    calls [image.close()] on the still unassigned local [image], and the
    [NameError] escapes the loop, aborting the whole batch. *)
Theorem extract_exif_unopenable_first_image_aborts (e : env) (cfg : config) (f : fs)
    (image_path : string) (rest : list string) :
  image_open e image_path = None ->
  extract_exif_from_image_and_move_to_dest_folder e cfg f (image_path :: rest) = Raise NameError.
Proof.
  intros H. unfold extract_exif_from_image_and_move_to_dest_folder.
  cbn [process_images]. unfold process_image, exif_try. rewrite H. reflexivity.
Qed.

Lemma extract_exif_unopenable_first_image_aborts_witness :
  image_open scenario_env "/src/broken.jpg" = None /\
  extract_exif_from_image_and_move_to_dest_folder scenario_env scenario_config
    ["/src/photo.jpg"] ["/src/broken.jpg"; "/src/photo.jpg"] = Raise NameError.
Proof.
  split; [reflexivity|].
  apply extract_exif_unopenable_first_image_aborts. reflexivity.
Defined.

(** Claim C6, counterexample: the JPEG [photo.jpg] with EXIF [DateTime]
    [2021:05:03 10:15:00] lands at [IMG_20210503_101500.jpeg], not
    [IMG_20210503_101500.jpg]: the extension is PIL's format name
    lower-cased. *)
Lemma extract_exif_scenario_jpeg_extension :
  match extract_exif_from_image_and_move_to_dest_folder scenario_env scenario_config
          ["/src/photo.jpg"] ["/src/photo.jpg"] with
  | Ok (_, succ, _, _) =>
      succ = ["/dst/2021/2021_05/IMG_20210503_101500.jpeg"] /\
      ~ In "/dst/2021/2021_05/IMG_20210503_101500.jpg" succ
  | Raise _ => False
  end.
Proof.
  vm_compute. split; [reflexivity|]. intros [H|[]]. discriminate.
Qed.

(** Claim C6, as the code does it: an image whose EXIF [DateTime] parses
    (with [include_year] true) is moved to
    [destination/{%Y}/{%Y_%m}/IMG_{%Y%m%d}_{%H%M%S}.{format}], where [format]
    is PIL's detected format lower-cased (for a JPEG file [jpeg]), when that
    path is free. *)
Theorem extract_exif_dated_image_destination (e : env) (cfg : config) (f : fs)
    (image_path : string) (img : pil_image) (exifdata : list (string * string))
    (s : string) (t : datetime) :
  image_open e image_path = Some img ->
  img_exif img = Some exifdata ->
  dict_lookup "DateTime" exifdata = Some s ->
  strptime e s = Some t ->
  py_lower (include_year_in_destination_folder_level cfg) = "true" ->
  let base_path := py_join (py_join (destination_path cfg) (strftime_Y t)) (strftime_Y_m t) in
  let dst_path := py_join base_path
        ("IMG_" ++ strftime_Ymd t ++ "_" ++ strftime_HMS t ++ "." ++ py_lower (img_format img)) in
  path_exists f dst_path = false ->
  move_ok e image_path dst_path = true ->
  exists f' copies,
    extract_exif_from_image_and_move_to_dest_folder e cfg f [image_path] =
      Ok (f', [dst_path], copies, []) /\ In dst_path f'.
Proof.
  intros Ho Hx Hd Hs Hy base_path dst_path Hf Hm.
  assert (Edst : dst_path = py_join base_path
            (("IMG_" ++ strftime_Ymd t ++ "_" ++ strftime_HMS t) ++ "." ++ py_lower (img_format img)))
    by (unfold dst_path; rewrite !string_app_assoc; reflexivity).
  rewrite Edst in Hf, Hm |- *. clearbody dst_path. clear Edst.
  unfold extract_exif_from_image_and_move_to_dest_folder.
  cbn [process_images]. unfold process_image, exif_try.
  rewrite Ho, Hx, Hd, Hs, Hy, String.eqb_refl. cbn [res_bind andb st_fs st_image].
  pose proof (create_dst_path_for_file_no_collision f base_path
                ("IMG_" ++ strftime_Ymd t ++ "_" ++ strftime_HMS t) (py_lower (img_format img))
                eq_refl) as Hc.
  rewrite py_lower_idem in Hc. specialize (Hc Hf).
  unfold base_path in Hc, Hm |- *.
  destruct (create_dst_path_for_file f _ _ _) as [f1 r] eqn:E.
  cbn [snd] in Hc. subst r.
  cbn [snd fst]. rewrite Hm. cbn.
  eexists _, _. split; [reflexivity|]. apply in_fs_move.
Qed.

Lemma extract_exif_dated_image_destination_witness :
  exists f' copies,
    extract_exif_from_image_and_move_to_dest_folder scenario_env scenario_config
      ["/src/photo.jpg"] ["/src/photo.jpg"] =
    Ok (f', ["/dst/2021/2021_05/IMG_20210503_101500.jpeg"], copies, []) /\
    In "/dst/2021/2021_05/IMG_20210503_101500.jpeg" f'.
Proof.
  exact (extract_exif_dated_image_destination scenario_env scenario_config ["/src/photo.jpg"]
           "/src/photo.jpg" (mk_pil_image "JPEG" (Some [("DateTime", "2021:05:03 10:15:00")]))
           [("DateTime", "2021:05:03 10:15:00")] "2021:05:03 10:15:00"
           (mk_datetime 2021 5 3 10 15 0)
           eq_refl eq_refl eq_refl eq_refl eq_refl eq_refl eq_refl).
Defined.

(** Claim C7, counterexample: [archive.tar.gz] gets the extension [tar]
    (the text between the first and the second dot), so it is moved to
    [Other Files/tar_Files/archive.tar], not to
    [Other Files/tar.gz_Files/archive.tar.gz]. *)
Lemma move_other_files_second_field_extension :
  match move_other_files scenario_env scenario_config [] ["/src/archive.tar.gz"] with
  | Ok (f', succ, _) =>
      In "/dst/Other Files/tar_Files/archive.tar" f' /\
      ~ In "/dst/Other Files/tar.gz_Files/archive.tar.gz" f'
  | Raise _ => False
  end.
Proof.
  vm_compute. split; [tauto|]. intros H. repeat (destruct H as [H|H]; [discriminate|]). exact H.
Qed.

(** Claim C7, as the code does it: for a file whose name contains a dot,
    the stem is the text before the first dot and the extension the text
    between the first and the second dot (whatever follows a second dot is
    dropped); the file is moved to
    [destination/Other Files/{extension}_Files/{stem}.{extension lower-cased}]
    when that path is free. *)
Theorem move_other_files_destination (e : env) (cfg : config) (f : fs)
    (file filename extension : string) (more : list string) :
  py_split_dot (py_basename file) = filename :: extension :: more ->
  let base_path := py_join (py_join (destination_path cfg) "Other Files") (extension ++ "_Files") in
  let dst_path := py_join base_path (filename ++ "." ++ py_lower extension) in
  path_exists f dst_path = false ->
  move_ok e file dst_path = true ->
  exists f', move_other_files e cfg f [file] = Ok (f', [file], []) /\ In dst_path f'.
Proof.
  intros Hsp base_path dst_path Hf Hm.
  pose proof (py_split_dot_basename_head _ _ _ Hsp) as Habs.
  unfold move_other_files. cbn [move_other_files_go]. unfold move_other_file.
  rewrite Hsp.
  pose proof (makedirs_keeps_absent f base_path _ (filename_dot_not_absolute _ _ Habs)
                (filename_dot_nonempty filename (py_lower extension)) Hf) as H0.
  pose proof (create_dst_path_for_file_no_collision _ base_path filename extension Habs H0) as Hc.
  unfold dst_path in Hm |- *. unfold base_path in Hc, Hm, H0 |- *.
  destruct (create_dst_path_for_file _ _ _ _) as [f1 r] eqn:E.
  cbn [snd] in Hc. subst r. cbv beta iota. rewrite Hm.
  eexists. split; [reflexivity|]. apply in_fs_move.
Qed.

Lemma move_other_files_destination_witness :
  exists f', move_other_files scenario_env scenario_config [] ["/src/document.pdf"] =
    Ok (f', ["/src/document.pdf"], []) /\ In "/dst/Other Files/pdf_Files/document.pdf" f'.
Proof.
  exact (move_other_files_destination scenario_env scenario_config [] "/src/document.pdf"
           "document" "pdf" [] eq_refl eq_refl eq_refl).
Defined.

(* ------------------------------------------------------------------ *)
(** ** The reconciler *)

Lemma compare_sizes_lengths (st : store) (quene deleted_files : list string)
    (problem_files : list (string * string)) (d' : list string) (p' : list (string * string)) :
  compare_sizes st quene deleted_files problem_files = Ok (d', p') ->
  length d' + length p' = length quene + length deleted_files + length problem_files.
Proof.
  revert deleted_files problem_files.
  induction quene as [|file rest IH]; intros d p H; simpl in H.
  - injection H as <- <-. simpl. lia.
  - destruct (isfile st file).
    + destruct (getsize st (org_file_of file)) as [n|x]; [|discriminate]. simpl in H.
      destruct (getsize st file) as [m|x]; [|discriminate]. simpl in H.
      destruct (m =? n)%nat; apply IH in H; rewrite length_app in H; simpl in *; lia.
    + apply IH in H. rewrite length_app in H. simpl in *. lia.
Qed.

Lemma compare_sizes_raise (st : store) (quene deleted_files : list string)
    (problem_files : list (string * string)) (x : exn) :
  compare_sizes st quene deleted_files problem_files = Raise x -> x = OSError.
Proof.
  revert deleted_files problem_files.
  induction quene as [|file rest IH]; intros d p H; simpl in H; [discriminate|].
  destruct (isfile st file); [|exact (IH _ _ H)].
  unfold getsize in H.
  destruct (find _ st) as [[q n]|]; simpl in H; [|congruence].
  destruct (find _ st) as [[q' m]|]; simpl in H; [|congruence].
  destruct (m =? n)%nat; exact (IH _ _ H).
Qed.

Lemma delete_pass_raise (outcome : string -> rm_outcome) (fuel i : nat)
    (del_files : list string) (st : store) (x : exn) :
  delete_pass outcome fuel i del_files st = Raise x -> x = OSError.
Proof.
  revert i del_files st. induction fuel as [|fuel IH]; intros i d st H; simpl in H;
    [discriminate|].
  destruct (nth_error d i) as [file|]; [|discriminate].
  destruct (isfile st file); [|exact (IH _ _ _ H)].
  unfold os_remove in H. destruct (outcome file); simpl in H;
    [exact (IH _ _ _ H)|congruence|exact (IH _ _ _ H)].
Qed.

(** The [while] loop only stops once [del_files] is empty and at least ten
    passes have run; it raises nothing but the errors of [os.remove]. *)
Lemma delete_loop_result (outcome : string -> rm_outcome) (fuel counter : nat)
    (del_files : list string) (st : store) :
  match delete_loop outcome fuel counter del_files st with
  | Some (Ok (d, _, c)) => d = [] /\ 10 <= c
  | Some (Raise x) => x = OSError
  | None => True
  end.
Proof.
  revert counter del_files st.
  induction fuel as [|fuel IH]; intros counter d st; cbn [delete_loop].
  - destruct ((0 <? length d) || (counter <? 10))%nat eqn:E; [exact I|].
    apply orb_false_iff in E as [E1 E2]. apply Nat.ltb_ge in E1, E2.
    destruct d; [|simpl in E1; lia]. split; [reflexivity|exact E2].
  - destruct ((0 <? length d) || (counter <? 10))%nat eqn:E.
    + destruct (delete_pass outcome (S (length d)) 0 d st) as [[d' st']|x] eqn:P.
      * apply IH.
      * exact (delete_pass_raise _ _ _ _ _ _ P).
    + apply orb_false_iff in E as [E1 E2]. apply Nat.ltb_ge in E1, E2.
      destruct d; [|simpl in E1; lia]. split; [reflexivity|exact E2].
Qed.

(** A marked file that [os.remove] leaves in place keeps the loop going. *)
Lemma delete_loop_stuck (fuel counter : nat) (file : string) (st : store) :
  isfile st file = true ->
  delete_loop (fun _ => StillThere) fuel counter [file] st = None.
Proof.
  intros Hf. revert counter. induction fuel as [|fuel IH]; intros counter; simpl.
  - reflexivity.
  - rewrite Hf. simpl. apply IH.
Qed.

Lemma py_contains_spec (needle hay : string) :
  py_contains needle hay = true <-> exists x y, hay = x ++ needle ++ y.
Proof.
  induction hay as [|c hay IH]; cbn [py_contains].
  - rewrite orb_false_r. split.
    + intros H. destruct needle; [|discriminate]. exists "", "". reflexivity.
    + intros ([|d x] & y & H); [|discriminate].
      destruct needle; [reflexivity|discriminate].
  - rewrite orb_true_iff, IH. split.
    + intros [H|(x & y & ->)].
      * exists "", (str_drop (String.length needle) (String c hay)).
        exact (prefix_drop _ _ H).
      * exists (String c x), y. reflexivity.
    + intros ([|d x] & y & H).
      * left. simpl in H. rewrite H. apply prefix_app.
      * right. injection H as _ H. exists x, y. exact H.
Qed.

Lemma split_sep_go_head (sep : string) (fuel : nat) (cur s : string) :
  String.length s < fuel ->
  hd "" (split_sep_go sep fuel cur s) = cur ++ before_first sep s.
Proof.
  revert cur s. induction fuel as [|fuel IH]; intros cur s H; [lia|].
  destruct s as [|c s']; cbn [split_sep_go hd before_first].
  - destruct (String.prefix sep ""); rewrite string_app_nil_r; reflexivity.
  - destruct (String.prefix sep (String c s')); cbn [hd].
    + rewrite string_app_nil_r. reflexivity.
    + rewrite IH by (simpl in H; lia). rewrite string_app_assoc. reflexivity.
Qed.

Lemma split_dot_go_last (cur s : string) :
  final_extension_go (Some cur) s = Some (last (split_dot_go cur s) "").
Proof.
  revert cur. induction s as [|c s IH]; intros cur; simpl; [reflexivity|].
  destruct ((c =? ".")%char).
  - rewrite IH. destruct (split_dot_go "" s) eqn:E; [|reflexivity].
    destruct s as [|d s]; simpl in E; [discriminate|].
    destruct ((d =? ".")%char); [discriminate|].
    exfalso. clear -E. revert E. generalize (String d EmptyString).
    induction s as [|e s IHs]; intros cur' E; simpl in E; [discriminate|].
    destruct ((e =? ".")%char); [discriminate|]. exact (IHs _ E).
  - apply IH.
Qed.

Lemma org_file_of_spec (file : string) :
  org_file_of file = py_drop_last (before_first "Kopie" file) ++ "." ++ after_last_dot file.
Proof.
  unfold org_file_of, py_split, after_last_dot.
  rewrite split_sep_go_head by lia. rewrite split_dot_go_last. reflexivity.
Qed.

Lemma compare_sizes_reasons (st : store) (quene deleted_files : list string)
    (problem_files : list (string * string)) (d' : list string) (p' : list (string * string)) :
  compare_sizes st quene deleted_files problem_files = Ok (d', p') ->
  (forall q, In q problem_files -> snd q <> "Could not be deleted") ->
  forall q, In q p' -> snd q <> "Could not be deleted".
Proof.
  revert deleted_files problem_files.
  induction quene as [|file rest IH]; intros d p H Hp; simpl in H.
  - injection H as <- <-. exact Hp.
  - assert (Hadd : forall r, r <> "Could not be deleted" ->
                   forall q, In q (p ++ [(file, r)])%list -> snd q <> "Could not be deleted").
    { intros r Hr q Hq. apply in_app_or in Hq as [Hq|[<-|[]]]; [exact (Hp q Hq)|exact Hr]. }
    destruct (isfile st file).
    + destruct (getsize st (org_file_of file)) as [n|x]; [|discriminate]. simpl in H.
      destruct (getsize st file) as [m|x]; [|discriminate]. simpl in H.
      destruct (m =? n)%nat; [exact (IH _ _ H Hp)|].
      apply (IH _ _ H). apply Hadd. discriminate.
    + apply (IH _ _ H). apply Hadd. discriminate.
Qed.

(** Once the [while] loop has ended, [del_files] is empty: the
    ["Could not be deleted"] branch is never taken. *)
Lemma delete_copy_pictures_never_reports_undeleted (fuel : nat)
    (outcome : string -> rm_outcome) (st : store) (path : string)
    (deleted_files : list string) (problem_files : list (string * string)) :
  delete_copy_pictures_from_destination fuel outcome st path =
    Some (Ok (deleted_files, problem_files)) ->
  ~ exists file, In (file, "Could not be deleted") problem_files.
Proof.
  unfold delete_copy_pictures_from_destination.
  destruct (compare_sizes st (kopie_queue st path) [] []) as [[d p]|x] eqn:C;
    [|discriminate].
  pose proof (delete_loop_result outcome fuel 0 d st) as L.
  destruct (delete_loop outcome fuel 0 d st) as [[[[d' st'] c]|x]|];
    [|discriminate|discriminate].
  destruct L as [-> _]. cbn [length Nat.ltb Nat.leb].
  destruct (length (kopie_queue st path) =? length d + length p)%nat; [|discriminate].
  intros H. injection H as <- <-. intros (file & Hin).
  exact (compare_sizes_reasons _ _ _ _ _ _ C (fun q Hq => match Hq with end) _ Hin eq_refl).
Qed.

(** Claim C5: whenever [delete_copy_pictures_from_destination] returns,
    the number of candidates (files whose path contains [Kopie]) equals the
    number of deleted files plus the number of problems; its final
    [assert] never fails (the only exceptions are those of
    [os.path.getsize] and [os.remove]). *)
Theorem delete_copy_pictures_counts (fuel : nat) (outcome : string -> rm_outcome)
    (st : store) (path : string) :
  match delete_copy_pictures_from_destination fuel outcome st path with
  | Some (Ok (deleted_files, problem_files)) =>
      length (kopie_queue st path) = length deleted_files + length problem_files
  | Some (Raise x) => x <> AssertionError
  | None => True
  end.
Proof.
  unfold delete_copy_pictures_from_destination.
  destruct (compare_sizes st (kopie_queue st path) [] []) as [[d p]|x] eqn:C.
  - pose proof (compare_sizes_lengths _ _ _ _ _ _ C) as Hlen. simpl in Hlen.
    pose proof (delete_loop_result outcome fuel 0 d st) as L.
    destruct (delete_loop outcome fuel 0 d st) as [[[[d' st'] c]|x]|]; [|subst; discriminate|exact I].
    destruct L as [-> _]. cbn [length Nat.ltb Nat.leb].
    replace (length d + length p) with (length (kopie_queue st path) + 0) by lia.
    rewrite Nat.add_0_r, Nat.eqb_refl. lia.
  - apply compare_sizes_raise in C. subst. discriminate.
Qed.

(** Claim C4 (at most ten passes, then the remaining files are reported)
    fails: the loop condition [len(del_files) > 0 or counter < 10] keeps the
    pass running for as long as a marked file stays visible after
    [os.remove], with no bound; and a file whose [os.remove] raises aborts
    the whole pass instead of being reported as a failed deletion. *)
Theorem delete_copy_pictures_no_retry_ceiling :
  (forall fuel, delete_copy_pictures_from_destination fuel (fun _ => StillThere)
                  duplicate_store "/dst" = None) /\
  delete_copy_pictures_from_destination 20 (fun _ => Denied) duplicate_store "/dst" =
    Some (Raise OSError).
Proof.
  split; [|reflexivity].
  intros fuel. unfold delete_copy_pictures_from_destination.
  assert (C : compare_sizes duplicate_store (kopie_queue duplicate_store "/dst") [] [] =
              Ok (["/dst/a_Kopie(1).jpg"], [])) by reflexivity.
  rewrite C. rewrite delete_loop_stuck by reflexivity. reflexivity.
Qed.

(** Claim C9: the candidates are the files whose full path contains
    [Kopie] anywhere (no check of the [_Kopie(i)] suffix), and the presumed
    original is the text before the first [Kopie] minus its last character,
    then a dot and the text after the last dot of the path. *)
Theorem delete_copy_pictures_kopie_anywhere (st : store) (path : string) :
  (forall file, In file (kopie_queue st path) <->
     In file (get_all_files_from_source st path) /\ isfile st file = true /\
     exists x y, file = x ++ "Kopie" ++ y) /\
  (forall file,
     org_file_of file = py_drop_last (before_first "Kopie" file) ++ "." ++ after_last_dot file).
Proof.
  split; [|exact org_file_of_spec].
  intros file. unfold kopie_queue. rewrite filter_In, andb_true_iff, py_contains_spec.
  tauto.
Qed.

Example kopie_directory_ex :
  In "/dst/Kopien/a.jpg" (kopie_queue [("/dst/Kopien/a.jpg", 1)] "/dst") /\
  org_file_of "/dst/Kopien/a.jpg" = "/dst.jpg" /\
  org_file_of "/dst/2021/MyKopie.jpg" = "/dst/2021/M.jpg".
Proof. split; [left; reflexivity|split; reflexivity]. Qed.

(* ------------------------------------------------------------------ *)
(** ** [delete_empty_folders] *)

(** Induction on directory trees, with a hypothesis for every entry of a
    directory. *)
Fixpoint entry_ind' (P : entry -> Prop)
  (Pfile : forall n, P (FileE n))
  (Pdir : forall n cs, Forall P cs -> P (DirE n cs)) (e : entry) : P e :=
  match e with
  | FileE n => Pfile n
  | DirE n cs =>
      Pdir n cs
        ((fix go (l : list entry) : Forall P l :=
            match l with
            | [] => Forall_nil P
            | c :: l' => Forall_cons c (entry_ind' P Pfile Pdir c) (go l')
            end) cs)
  end.

Lemma walk_pass_removed (directory dirpath : string) (e : entry) :
  walk_pass directory dirpath e = None ->
  dirpath <> directory /\ exists n, e = DirE n [].
Proof.
  destruct e as [n | n cs]; cbn [walk_pass]; [discriminate |].
  destruct cs as [| c cs]; cbn [andb negb].
  - destruct (String.eqb_spec dirpath directory); [discriminate |].
    intros _. split; [assumption | eauto].
  - discriminate.
Qed.

Lemma walk_pass_name (directory dirpath : string) (e e' : entry) :
  walk_pass directory dirpath e = Some e' -> entry_name e' = entry_name e.
Proof.
  destruct e as [n | n cs]; cbn [walk_pass].
  - intros H. injection H as <-. reflexivity.
  - destruct (_ && _); [discriminate |]. intros H. injection H as <-. reflexivity.
Qed.

Lemma walk_pass_root_dir (directory n : string) (cs : list entry) :
  exists cs', walk_pass directory directory (DirE n cs) = Some (DirE n cs').
Proof.
  cbn [walk_pass]. rewrite String.eqb_refl, andb_false_r. eauto.
Qed.

(** A directory with at least one entry when the walk lists it survives the
    walk, at the same path. *)
Lemma walk_pass_keeps_nonempty (directory : string) (e : entry) :
  forall dirpath e', walk_pass directory dirpath e = Some e' ->
  forall q, In q (nonempty_dir_paths dirpath e) -> In q (dir_paths dirpath e').
Proof.
  induction e as [n | n cs IH] using entry_ind'.
  - intros dirpath e' Hw q Hq. destruct Hq.
  - intros dirpath e' Hw q Hq. cbn [walk_pass] in Hw.
    destruct (_ && _); [discriminate |]. injection Hw as <-.
    cbn [nonempty_dir_paths] in Hq. cbn [dir_paths].
    apply in_app_or in Hq as [Hq | Hq].
    + destruct cs; [destruct Hq | destruct Hq as [<- | []]; left; reflexivity].
    + right. apply in_flat_map in Hq as (c & Hc & Hq).
      rewrite Forall_forall in IH.
      destruct (walk_pass directory (py_join dirpath (entry_name c)) c) as [c' |] eqn:Hwc.
      * apply in_flat_map. exists c'. split.
        -- apply in_flat_map. exists c. rewrite Hwc. split; [assumption | left; reflexivity].
        -- rewrite (walk_pass_name _ _ _ _ Hwc). exact (IH c Hc _ _ Hwc q Hq).
      * apply walk_pass_removed in Hwc as (_ & m & ->). destruct Hq.
Qed.

Lemma walk_pass_root_spec (directory : string) (t : entry) :
  walk_pass directory directory t = Some (walk_pass_root directory t).
Proof.
  unfold walk_pass_root. destruct t as [n | n cs].
  - reflexivity.
  - destruct (walk_pass_root_dir directory n cs) as (cs' & ->). reflexivity.
Qed.

(** C8: [delete_empty_folders(directory, levels)] runs [levels] bottom-up walks
    of the tree, one after the other.  In each walk a directory is removed only
    if it is not the root and its listing, taken when the walk reaches it, has
    no file and no subdirectory: every directory with an entry at that time is
    still there, at the same path, after the walk.  Whatever the number of
    walks, the root directory is never removed. *)
Theorem delete_empty_folders_prunes_only_empty (directory : string) :
  (forall levels n cs, exists cs',
     delete_empty_folders directory levels (DirE n cs) = DirE n cs')
  /\ (forall dirpath e, walk_pass directory dirpath e = None ->
       dirpath <> directory /\ exists n, e = DirE n [])
  /\ (forall t q, In q (nonempty_dir_paths directory t) ->
       In q (dir_paths directory (walk_pass_root directory t)))
  /\ (forall levels t,
       delete_empty_folders directory (S levels) t
       = walk_pass_root directory (delete_empty_folders directory levels t)).
Proof.
  split; [| split; [| split]].
  - intros levels n cs. unfold delete_empty_folders.
    induction levels as [| k IHk].
    + exists cs. reflexivity.
    + destruct IHk as [cs' IH]. rewrite Nat.iter_succ, IH.
      destruct (walk_pass_root_dir directory n cs') as (cs'' & Hw).
      unfold walk_pass_root. rewrite Hw. eauto.
  - apply walk_pass_removed.
  - intros t q Hq.
    exact (walk_pass_keeps_nonempty directory t directory _ (walk_pass_root_spec directory t) q Hq).
  - intros levels t. reflexivity.
Qed.

(** Nested empty directories go one level per walk: after the walk that
    removes [c], its parent [b] is empty and the next walk removes it; the root
    stays even once it is empty. *)
Example delete_empty_folders_nested_ex :
  let t := DirE "src" [DirE "a" [DirE "b" [DirE "c" []]]; DirE "d" [FileE "x.jpg"]] in
  delete_empty_folders "/src" 1 t
    = DirE "src" [DirE "a" [DirE "b" []]; DirE "d" [FileE "x.jpg"]]
  /\ delete_empty_folders "/src" 2 t
    = DirE "src" [DirE "a" []; DirE "d" [FileE "x.jpg"]]
  /\ delete_empty_folders "/src" 3 t = DirE "src" [DirE "d" [FileE "x.jpg"]]
  /\ delete_empty_folders "/src" 5 (DirE "src" [DirE "a" [DirE "b" []]])
    = DirE "src" [].
Proof. vm_compute. repeat split. Qed.

(* ------------------------------------------------------------------ *)
(** ** [await_user_input] *)

Lemma existsb_eqb_In (x : string) (l : list string) :
  existsb (String.eqb x) l = true <-> In x l.
Proof.
  rewrite existsb_exists. split.
  - intros (y & Hy & E). apply String.eqb_eq in E. subst. exact Hy.
  - intros H. exists x. split; [exact H | apply String.eqb_refl].
Qed.

Lemma await_loop_ok (a : list pyval) (strs inputs : list string) (ans : string)
    (rest : list string) :
  await_loop (Some a) strs inputs = POk (ans, rest) ->
  exists pre, inputs = (pre ++ ans :: rest)%list /\ In ans strs /\
    Forall (fun x => ~ In x strs) pre.
Proof.
  induction inputs as [|inp inputs IH]; cbn [await_loop]; [discriminate|].
  destruct (existsb (String.eqb inp) strs) eqn:E.
  - intros H. injection H as <- <-. exists []. split; [reflexivity|].
    split; [apply existsb_eqb_In, E | constructor].
  - intros H. destruct (IH H) as (pre & -> & Hin & Hpre).
    exists (inp :: pre). split; [reflexivity|]. split; [exact Hin|].
    constructor; [|exact Hpre].
    intros Hi. apply existsb_eqb_In in Hi. congruence.
Qed.

Lemma await_loop_raise (a : option (list pyval)) (strs inputs : list string) (x : py_exn) :
  await_loop a strs inputs = PRaise x -> x = EOFError.
Proof.
  induction inputs as [|inp inputs IH]; cbn [await_loop].
  - intros H. injection H as <-. reflexivity.
  - destruct a; [|discriminate].
    destruct (existsb (String.eqb inp) strs); [discriminate | exact IH].
Qed.

Lemma await_loop_eof (a : list pyval) (strs inputs : list string) :
  await_loop (Some a) strs inputs = PRaise EOFError <-> Forall (fun x => ~ In x strs) inputs.
Proof.
  induction inputs as [|inp inputs IH]; cbn [await_loop].
  - split; [constructor | reflexivity].
  - destruct (existsb (String.eqb inp) strs) eqn:E.
    + split; [discriminate|]. intros H. inversion H as [|? ? Hn _]. subst.
      exfalso. apply Hn, existsb_eqb_In, E.
    + rewrite IH. split.
      * intros H. constructor; [|exact H]. intros Hi. apply existsb_eqb_In in Hi. congruence.
      * intros H. inversion H. assumption.
Qed.

(** X1: [await_user_input] with [allowed_answers] returns the first line that is
    [str] of an allowed answer and consumes the lines up to it; it raises
    [EOFError] exactly when no line is allowed, and raises nothing else.
    Without [allowed_answers] it returns the first line. *)
Theorem await_user_input_first_allowed (message : string) :
  (forall allowed inputs ans rest,
     await_user_input message (Some allowed) inputs = POk (ans, rest) ->
     exists pre, inputs = (pre ++ ans :: rest)%list /\ In ans (map py_str allowed) /\
       Forall (fun x => ~ In x (map py_str allowed)) pre) /\
  (forall allowed inputs,
     await_user_input message (Some allowed) inputs = PRaise EOFError <->
     Forall (fun x => ~ In x (map py_str allowed)) inputs) /\
  (forall allowed inputs x, await_user_input message allowed inputs = PRaise x -> x = EOFError) /\
  (forall inp rest, await_user_input message None (inp :: rest) = POk (inp, rest)).
Proof.
  unfold await_user_input. split; [|split; [|split]].
  - intros allowed inputs ans rest. apply await_loop_ok.
  - intros allowed inputs. apply await_loop_eof.
  - intros allowed inputs x. apply await_loop_raise.
  - reflexivity.
Qed.

(* ------------------------------------------------------------------ *)
(** ** [await_user_input_from_list_decision] *)

Lemma insert_sorted_perm (s : string) (l : list string) :
  Permutation (s :: l) (insert_sorted s l).
Proof.
  induction l as [|x l IH]; cbn [insert_sorted]; [reflexivity|].
  destruct (String.compare s x); try reflexivity.
  etransitivity; [apply perm_swap|]. constructor. exact IH.
Qed.

Lemma py_sorted_perm (l : list string) : Permutation l (py_sorted l).
Proof.
  induction l as [|x l IH]; cbn [py_sorted]; [reflexivity|].
  etransitivity; [apply perm_skip, IH | apply insert_sorted_perm].
Qed.


Lemma str_compare_gt_le (a b : string) : String.compare a b = Gt -> str_le b a.
Proof.
  unfold str_le. intros H. rewrite String.compare_antisym, H. discriminate.
Qed.

Lemma insert_sorted_sorted (s : string) (l : list string) :
  Sorted str_le l -> Sorted str_le (insert_sorted s l).
Proof.
  induction l as [|x l IH]; intros Hs; cbn [insert_sorted].
  - repeat constructor.
  - destruct (String.compare s x) eqn:E.
    + constructor; [exact Hs|]. constructor. unfold str_le. rewrite E. discriminate.
    + constructor; [exact Hs|]. constructor. unfold str_le. rewrite E. discriminate.
    + apply Sorted_inv in Hs as [Hl Hhd]. constructor; [exact (IH Hl)|].
      destruct l as [|y l]; cbn [insert_sorted].
      * constructor. apply str_compare_gt_le, E.
      * destruct (String.compare s y).
        -- constructor. apply str_compare_gt_le, E.
        -- constructor. apply str_compare_gt_le, E.
        -- inversion Hhd. constructor. assumption.
Qed.

Lemma py_sorted_sorted (l : list string) : Sorted str_le (py_sorted l).
Proof.
  induction l as [|x l IH]; cbn [py_sorted]; [constructor|].
  apply insert_sorted_sorted, IH.
Qed.

Lemma py_int_str (n : nat) : py_int (py_str_nat n) = Some n.
Proof.
  unfold py_int, py_str_nat. rewrite NilEmpty.usu. cbn [option_map].
  rewrite DecimalNat.Unsigned.of_to. reflexivity.
Qed.

Lemma in_map_py_str_seq (s : string) (n : nat) :
  In s (map py_str (map PInt (seq 0 n))) -> exists k, k < n /\ s = py_str_nat k.
Proof.
  rewrite map_map. intros H. apply in_map_iff in H as (k & <- & Hk).
  apply in_seq in Hk. exists k. split; [lia | reflexivity].
Qed.

Lemma decision_many (l : list string) (h : string) (inputs : list string) :
  2 <= length l ->
  await_user_input_from_list_decision l h inputs =
  let+ (user_input, rest) :=
    await_user_input "" (Some (map PInt (seq 0 (length l)))) inputs in
  match py_int user_input with
  | None => PRaise (Exn ValueError)
  | Some i =>
      match nth_error (py_sorted l) i with
      | None => PRaise (Exn IndexError)
      | Some d => POk (Some d, rest)
      end
  end.
Proof.
  intros Hl. destruct l as [|x [|y l]]; cbn [length] in Hl; [lia|lia|].
  reflexivity.
Qed.

Lemma decision_result (l : list string) (h : string) (inputs : list string) :
  match await_user_input_from_list_decision l h inputs with
  | POk (Some d, _) => In d l
  | POk (None, rest) => l = [] /\ rest = inputs
  | PRaise x => x = EOFError
  end.
Proof.
  destruct (Nat.lt_ge_cases (length l) 2) as [Hs|Hl].
  { destruct l as [|x0 [|y0 l0]]; cbn in Hs; [simpl; split; reflexivity|simpl; left; reflexivity|lia]. }
  rewrite (decision_many l h inputs Hl).
  destruct (await_user_input "" (Some (map PInt (seq 0 (length l)))) inputs)
    as [[ans rest]|x] eqn:A; cbn [pres_bind].
  - unfold await_user_input in A. apply await_loop_ok in A as (pre & _ & Hin & _).
    apply in_map_py_str_seq in Hin as (k & Hk & ->). rewrite py_int_str.
    pose proof (py_sorted_perm l) as P.
    destruct (nth_error (py_sorted l) k) as [d|] eqn:N.
    + apply Permutation_sym in P. apply (Permutation_in _ P). apply nth_error_In in N. exact N.
    + apply nth_error_None in N. apply Permutation_length in P. lia.
  - unfold await_user_input in A. exact (await_loop_raise _ _ _ _ A).
Qed.

(** X2: [await_user_input_from_list_decision] returns [None] on an empty list
    and the only entry of a one-entry list without reading a line; on a
    longer list it only returns one of its entries, never raises [ValueError]
    or [IndexError] (only [EOFError]), and typing the index [k] selects the
    [k]-th entry of the list sorted by code points. *)
Theorem await_user_input_from_list_decision_entry (h : string) :
  (forall inputs, await_user_input_from_list_decision [] h inputs = POk (None, inputs)) /\
  (forall x inputs, await_user_input_from_list_decision [x] h inputs = POk (Some x, inputs)) /\
  (forall l inputs d rest,
     await_user_input_from_list_decision l h inputs = POk (Some d, rest) -> In d l) /\
  (forall l inputs x,
     await_user_input_from_list_decision l h inputs = PRaise x -> x = EOFError) /\
  (forall l k rest, 2 <= length l -> k < length l ->
     await_user_input_from_list_decision l h (py_str_nat k :: rest) =
     POk (Some (nth k (py_sorted l) ""), rest)) /\
  (forall l, Permutation l (py_sorted l) /\ Sorted str_le (py_sorted l)).
Proof.
  split; [reflexivity|]. split; [reflexivity|]. split; [|split; [|split]].
  - intros l inputs d rest H. pose proof (decision_result l h inputs) as R.
    rewrite H in R. exact R.
  - intros l inputs x H. pose proof (decision_result l h inputs) as R.
    rewrite H in R. exact R.
  - intros l k rest Hl Hk. rewrite (decision_many l h) by exact Hl.
    unfold await_user_input. cbn [await_loop].
    assert (E : existsb (String.eqb (py_str_nat k)) (map py_str (map PInt (seq 0 (length l)))) = true).
    { apply existsb_eqb_In. rewrite map_map. apply in_map_iff. exists k.
      split; [reflexivity|]. apply in_seq. lia. }
    rewrite E. cbn [pres_bind]. rewrite py_int_str.
    pose proof (Permutation_length (py_sorted_perm l)) as P.
    destruct (nth_error (py_sorted l) k) as [d|] eqn:N.
    + apply (nth_error_nth _ _ "") in N. rewrite N. reflexivity.
    + apply nth_error_None in N. lia.
  - intros l. split; [apply py_sorted_perm | apply py_sorted_sorted].
Qed.

Lemma decision_suffix (l : list string) (h : string) (inputs rest : list string)
    (r : option string) :
  await_user_input_from_list_decision l h inputs = POk (r, rest) ->
  exists pre, inputs = (pre ++ rest)%list.
Proof.
  destruct (Nat.lt_ge_cases (length l) 2) as [Hs|Hl].
  { destruct l as [|x0 [|y0 l0]]; cbn in Hs; [|simpl|lia];
      intros H; injection H as _ <-; exists []; reflexivity. }
  rewrite (decision_many l h inputs Hl).
  destruct (await_user_input "" (Some (map PInt (seq 0 (length l)))) inputs)
    as [[ans rest']|x] eqn:A; cbn [pres_bind]; [|discriminate].
  unfold await_user_input in A. apply await_loop_ok in A as (pre & -> & _ & _).
  destruct (py_int ans); [|discriminate].
  destruct (nth_error (py_sorted l) n); [|discriminate].
  intros H. injection H as _ <-. exists (pre ++ [ans])%list.
  rewrite <- app_assoc. reflexivity.
Qed.

(** X3: [initialize] of [foto_organization_tool.py] returns a configuration only
    if it was read from a file of the [configs/] listing and parsed by
    [json.loads], and the last line the user typed was [y]; with an empty
    [configs/] folder it returns [None] without reading any line. *)
Theorem initialize_requires_approval (json : Type) (listdir : string -> option (list string))
    (read_file : string -> option string) (json_loads : string -> option json)
    (json_dumps : json -> string) (inputs : list string) (cfg : json) (rest : list string) :
  initialize json listdir read_file json_loads json_dumps inputs = POk (Some cfg, rest) ->
  exists files name txt pre,
    listdir "configs/" = Some files /\ In name files /\
    read_file (py_join "configs/" name) = Some txt /\ json_loads txt = Some cfg /\
    inputs = (pre ++ "y" :: rest)%list.
Proof.
  unfold initialize.
  destruct (listdir "configs/") as [files|]; [|discriminate].
  destruct (await_user_input_from_list_decision files "Following configuration files found:" inputs)
    as [[r inputs1]|x] eqn:D; cbn [pres_bind]; [|discriminate].
  pose proof (decision_result files "Following configuration files found:" inputs) as R.
  rewrite D in R. destruct (decision_suffix _ _ _ _ _ D) as (pre1 & ->).
  destruct r as [name|]; [|discriminate].
  destruct (read_file (py_join "configs/" name)) as [txt|] eqn:Er; [|discriminate].
  destruct (json_loads txt) as [c|] eqn:Ej; [|discriminate].
  match goal with |- context [await_user_input ?m ?a inputs1] =>
    destruct (await_user_input m a inputs1) as [[ans inputs2]|x] eqn:A end;
    cbn [pres_bind]; [|discriminate].
  unfold await_user_input in A. apply await_loop_ok in A as (pre2 & -> & Hin & _).
  destruct (String.eqb_spec ans "n"); [discriminate|].
  intros H. injection H as <- <-.
  assert (ans = "y") as ->.
  { cbn in Hin. destruct Hin as [H|[H|[]]]; congruence. }
  exists files, name, txt, (pre1 ++ pre2)%list.
  repeat split; auto. rewrite app_assoc. reflexivity.
Qed.

Lemma initialize_requires_approval_witness :
  initialize nat (fun _ => Some ["a.json"]) (fun _ => Some "{}") (fun _ => Some 0)
    (fun _ => "{}") ["ok"; "y"] = POk (Some 0, []) /\
  exists files name txt pre,
    (fun _ : string => Some ["a.json"]) "configs/" = Some files /\ In name files /\
    (fun _ : string => Some "{}") (py_join "configs/" name) = Some txt /\
    (fun _ : string => Some 0) txt = Some 0 /\
    ["ok"; "y"] = (pre ++ "y" :: [])%list.
Proof.
  split; [reflexivity|].
  apply (initialize_requires_approval nat (fun _ => Some ["a.json"]) (fun _ => Some "{}")
           (fun _ => Some 0) (fun _ => "{}") ["ok"; "y"] 0 []).
  reflexivity.
Defined.

Lemma find_none_Forall {A : Type} (f : A -> bool) (l : list A) :
  find f l = None <-> Forall (fun x => f x = false) l.
Proof.
  induction l as [|x l IH]; cbn [find].
  - split; [constructor | reflexivity].
  - destruct (f x) eqn:E.
    + split; [discriminate|]. intros H. inversion H. congruence.
    + rewrite IH. split; [intros H; constructor; assumption | intros H; inversion H; assumption].
Qed.

Lemma find_first {A : Type} (f : A -> bool) (pre post : list A) (x : A) :
  f x = true -> Forall (fun y => f y = false) pre -> find f (pre ++ x :: post) = Some x.
Proof.
  intros Hx Hpre. induction Hpre as [|y pre Hy _ IH]; cbn [find Datatypes.app].
  - rewrite Hx. reflexivity.
  - rewrite Hy. exact IH.
Qed.

(** X4: [initialize] of [automatic_foto_organization_tool.py] raises
    [NameError] exactly when no entry of the [configs/] listing ends in
    [.json]; otherwise it loads the first such entry in listing order. *)
Theorem automatic_initialize_first_json (json : Type) (listdir : string -> option (list string))
    (read_file : string -> option string) (json_loads : string -> option json)
    (config_path : string) (files : list string) :
  listdir config_path = Some files ->
  (Automatic.initialize json listdir read_file json_loads config_path = PRaise (Exn NameError) <->
   Forall (fun file => py_endswith ".json" file = false) files) /\
  (forall pre name post,
     files = (pre ++ name :: post)%list -> py_endswith ".json" name = true ->
     Forall (fun file => py_endswith ".json" file = false) pre ->
     Automatic.initialize json listdir read_file json_loads config_path =
     match read_file (py_join config_path name) with
     | None => POk None
     | Some txt =>
         match json_loads txt with
         | None => PRaise (Exn ValueError)
         | Some config => POk (Some config)
         end
     end).
Proof.
  intros Hl. unfold Automatic.initialize. rewrite Hl. split.
  - rewrite <- find_none_Forall.
    destruct (find (fun file => py_endswith ".json" file) files) as [name|]; [|split; reflexivity].
    split; [|discriminate]. intros H.
    destruct (read_file (py_join config_path name)) as [txt|]; [|discriminate].
    destruct (json_loads txt); discriminate.
  - intros pre name post -> Hn Hpre. rewrite (find_first (fun file => py_endswith ".json" file) pre post name Hn Hpre). reflexivity.
Qed.

Lemma automatic_initialize_first_json_witness :
  Automatic.initialize nat (fun _ => Some ["notes.txt"]) (fun _ => Some "{}") (fun _ => Some 0)
    "/app/configs/" = PRaise (Exn NameError).
Proof.
  apply (proj1 (automatic_initialize_first_json nat (fun _ => Some ["notes.txt"])
                  (fun _ => Some "{}") (fun _ => Some 0) "/app/configs/" ["notes.txt"] eq_refl)).
  repeat constructor.
Defined.

(* ------------------------------------------------------------------ *)
(** ** [format_bytes] *)

Lemma format_bytes_loop_stop (a : Z) (d : positive) (fuel n : nat) :
  (a <= 1024 * Zpos d)%Z ->
  format_bytes_loop (S fuel) (QArith_base.Qmake a d) n = (QArith_base.Qmake a d, n).
Proof.
  intros H. cbn [format_bytes_loop].
  replace (QArith_base.Qle_bool (QArith_base.Qmake a d) (QArith_base.inject_Z 1024))
    with (a * 1 <=? 1024 * Zpos d)%Z by reflexivity.
  rewrite Z.mul_1_r. apply Z.leb_le in H. rewrite H. reflexivity.
Qed.

Lemma format_bytes_loop_step (a : Z) (d : positive) (fuel n : nat) :
  (1024 * Zpos d < a)%Z ->
  format_bytes_loop (S fuel) (QArith_base.Qmake a d) n =
  format_bytes_loop fuel (QArith_base.Qmake a (d * 1024)) (S n).
Proof.
  intros H. cbn [format_bytes_loop].
  replace (QArith_base.Qle_bool (QArith_base.Qmake a d) (QArith_base.inject_Z 1024))
    with (a * 1 <=? 1024 * Zpos d)%Z by reflexivity.
  rewrite Z.mul_1_r. apply Z.leb_gt in H. rewrite H.
  replace (QArith_base.Qdiv (QArith_base.Qmake a d) (QArith_base.inject_Z 1024))
    with (QArith_base.Qmake (a * 1) (d * 1024)) by reflexivity.
  rewrite Z.mul_1_r. reflexivity.
Qed.

(** The loop makes exactly [k] rounds when [a / d] is in
    [(1024 ^ k, 1024 ^ (k + 1)]]. *)
Lemma format_bytes_loop_exact (k : nat) :
  forall fuel a d n, (k < fuel)%nat ->
  (a <= 1024 * (Zpos d * 1024 ^ Z.of_nat k))%Z ->
  (forall j, (j < k)%nat -> (1024 * (Zpos d * 1024 ^ Z.of_nat j) < a)%Z) ->
  exists d', format_bytes_loop fuel (QArith_base.Qmake a d) n =
             (QArith_base.Qmake a d', (n + k)%nat) /\
             Zpos d' = (Zpos d * 1024 ^ Z.of_nat k)%Z.
Proof.
  induction k as [|k IH]; intros fuel a d n Hf Hup Hlow.
  - destruct fuel as [|fuel]; [lia|]. exists d.
    rewrite format_bytes_loop_stop; [split; [f_equal; lia | cbn; lia]|].
    cbn in Hup. lia.
  - destruct fuel as [|fuel]; [lia|].
    rewrite format_bytes_loop_step
      by (specialize (Hlow 0%nat ltac:(lia)); cbn in Hlow; lia).
    destruct (IH fuel a (d * 1024)%positive (S n)) as (d' & E & Hd').
    + lia.
    + rewrite Pos2Z.inj_mul. rewrite Nat2Z.inj_succ, Z.pow_succ_r in Hup by lia. lia.
    + intros j Hj. specialize (Hlow (S j) ltac:(lia)).
      rewrite Pos2Z.inj_mul. rewrite Nat2Z.inj_succ, Z.pow_succ_r in Hlow by lia. lia.
    + exists d'. rewrite E. split; [f_equal; lia|].
      rewrite Hd', Pos2Z.inj_mul, Nat2Z.inj_succ, Z.pow_succ_r by lia. lia.
Qed.

(** The loop makes at least [k] rounds when [a / d] is above [1024 ^ k]. *)
Lemma format_bytes_loop_at_least (k : nat) :
  forall fuel a d n, (k <= fuel)%nat ->
  (forall j, (j < k)%nat -> (1024 * (Zpos d * 1024 ^ Z.of_nat j) < a)%Z) ->
  (n + k <= snd (format_bytes_loop fuel (QArith_base.Qmake a d) n))%nat.
Proof.
  induction k as [|k IH]; intros fuel a d n Hf Hlow.
  - clear. revert a d n. induction fuel as [|fuel IHf]; intros a d n; cbn [format_bytes_loop].
    + cbn. lia.
    + destruct (QArith_base.Qle_bool _ _); [cbn; lia|].
      specialize (IHf a (d * 1024)%positive (S n)).
      replace (QArith_base.Qdiv (QArith_base.Qmake a d) (QArith_base.inject_Z 1024))
        with (QArith_base.Qmake (a * 1) (d * 1024)) by reflexivity.
      rewrite Z.mul_1_r. lia.
  - destruct fuel as [|fuel]; [lia|].
    rewrite format_bytes_loop_step
      by (specialize (Hlow 0%nat ltac:(lia)); cbn in Hlow; lia).
    specialize (IH fuel a (d * 1024)%positive (S n) ltac:(lia)).
    enough (n + S k <= S n + k)%nat.
    { etransitivity; [exact H|]. apply IH. intros j Hj. specialize (Hlow (S j) ltac:(lia)).
      rewrite Pos2Z.inj_mul. rewrite Nat2Z.inj_succ, Z.pow_succ_r in Hlow by lia. lia. }
    lia.
Qed.

Lemma format_bytes_large (s : Z) :
  (1024 < s)%Z -> (s < overflow_bound)%Z ->
  format_bytes (Some s) =
  let '(q, n) := format_bytes_loop (S (Z.to_nat (Z.log2 s)))
                   (QArith_base.Qmake s 1024) 1 in
  match power_labels n with
  | Some label => POk (PyFloat (round3 q), label ++ "bytes")
  | None => PRaise (Exn KeyError)
  end.
Proof.
  intros H1 H2. unfold format_bytes.
  replace (s <=? 1024)%Z with false by (symmetry; apply Z.leb_gt; lia).
  replace (overflow_bound <=? s)%Z with false by (symmetry; apply Z.leb_gt; lia).
  replace (QArith_base.Qdiv (QArith_base.inject_Z s) (QArith_base.inject_Z 1024))
    with (QArith_base.Qmake (s * 1) (1 * 1024)) by reflexivity.
  rewrite Z.mul_1_r. cbn [Pos.mul].
  destruct (format_bytes_loop _ _ _) as [q n]. reflexivity.
Qed.

Lemma log2_fuel (s : Z) : (1024 < s)%Z -> (10 <= Z.to_nat (Z.log2 s))%nat.
Proof.
  intros H. assert (Hl : (Z.log2 1024 <= Z.log2 s)%Z) by (apply Z.log2_le_mono; lia).
  replace (Z.log2 1024) with 10%Z in Hl by reflexivity. lia.
Qed.

Lemma overflow_bound_big : (1024 ^ 5 < overflow_bound)%Z.
Proof. unfold overflow_bound. lia. Qed.

Lemma format_bytes_range_gen (s : Z) (n : nat) :
  (1 <= n <= 4)%nat ->
  (1024 ^ Z.of_nat n < s <= 1024 ^ Z.of_nat (S n))%Z ->
  exists label, power_labels n = Some label /\
    format_bytes (Some s) =
    POk (PyFloat (round3 (QArith_base.Qmake s (Z.to_pos (1024 ^ Z.of_nat n)))), label ++ "bytes").
Proof.
  intros Hn Hs.
  assert (Hp : (1024 ^ Z.of_nat n <= 1024 ^ 4)%Z) by (apply Z.pow_le_mono_r; lia).
  assert (Hp1 : (1024 <= 1024 ^ Z.of_nat n)%Z).
  { rewrite <- (Z.pow_1_r 1024) at 1. apply Z.pow_le_mono_r; lia. }
  pose proof overflow_bound_big as Hob.
  assert (Hs5 : (s <= 1024 ^ 5)%Z).
  { transitivity (1024 ^ Z.of_nat (S n))%Z; [lia|]. apply Z.pow_le_mono_r; lia. }
  rewrite format_bytes_large by lia.
  pose proof (log2_fuel s ltac:(lia)) as Hf.
  destruct (format_bytes_loop_exact (n - 1) (S (Z.to_nat (Z.log2 s))) s 1024 1)
    as (d' & E & Hd').
  - lia.
  - replace (Zpos 1024 * 1024 ^ Z.of_nat (n - 1))%Z with (1024 ^ Z.of_nat n)%Z.
    + rewrite Nat2Z.inj_succ, Z.pow_succ_r in Hs by lia. lia.
    + replace (Z.of_nat n) with (Z.succ (Z.of_nat (n - 1))) at 1 by lia.
      rewrite Z.pow_succ_r by lia. lia.
  - intros j Hj.
    assert (Hjn : (1024 * (1024 * 1024 ^ Z.of_nat j) <= 1024 ^ Z.of_nat n)%Z).
    { replace (1024 * (1024 * 1024 ^ Z.of_nat j))%Z with (1024 ^ Z.of_nat (S (S j)))%Z.
      - apply Z.pow_le_mono_r; lia.
      - rewrite !Nat2Z.inj_succ, !Z.pow_succ_r by lia. lia. }
    lia.
  - rewrite E. replace (1 + (n - 1))%nat with n by lia.
    replace d' with (Z.to_pos (1024 ^ Z.of_nat n)).
    + destruct n as [|[|[|[|[|n]]]]]; try lia; eexists; split; reflexivity.
    + rewrite <- (Pos2Z.id d'), Hd'. f_equal.
      replace (Z.of_nat n) with (Z.succ (Z.of_nat (n - 1))) at 1 by lia.
      rewrite Z.pow_succ_r by lia. lia.
Qed.

Lemma format_bytes_keyerror (s : Z) :
  (1024 ^ 5 < s)%Z -> (s < overflow_bound)%Z -> format_bytes (Some s) = PRaise (Exn KeyError).
Proof.
  intros H1 H2. rewrite format_bytes_large by lia.
  pose proof (log2_fuel s ltac:(lia)) as Hf.
  pose proof (format_bytes_loop_at_least 4 (S (Z.to_nat (Z.log2 s))) s 1024 1 ltac:(lia)) as L.
  destruct (format_bytes_loop _ _ _) as [q n]. cbn [snd] in L.
  assert (Hl : (forall j : nat, j < 4 -> (1024 * (1024 * 1024 ^ Z.of_nat j) < s)%Z)).
  { intros j Hj. destruct j as [|[|[|[|j]]]]; try lia; cbn; lia. }
  specialize (L Hl).
  destruct n as [|[|[|[|[|n]]]]]; try reflexivity; lia.
Qed.

Lemma format_bytes_small (s : Z) : (s <= 1024)%Z -> format_bytes (Some s) = POk (PyInt s, "bytes").
Proof.
  intros H. unfold format_bytes. apply Z.leb_le in H. rewrite H. reflexivity.
Qed.

Lemma format_bytes_overflow (s : Z) :
  (overflow_bound <= s)%Z -> format_bytes (Some s) = PRaise OverflowError.
Proof.
  intros H. unfold format_bytes.
  replace (s <=? 1024)%Z with false by (symmetry; apply Z.leb_gt; unfold overflow_bound in H; lia).
  apply Z.leb_le in H. rewrite H. reflexivity.
Qed.



(** X6: For [1024 ^ n < size <= 1024 ^ (n + 1)] with [1 <= n <= 4],
    [format_bytes] returns the float [size / 1024 ^ n] rounded to three
    decimals (ties to even) and the [n]-th label of [kilo], [mega], [giga],
    [tera] followed by [bytes]. *)
Theorem format_bytes_power_of_1024 (s : Z) (n : nat) :
  (1 <= n <= 4)%nat ->
  (1024 ^ Z.of_nat n < s <= 1024 ^ Z.of_nat (S n))%Z ->
  exists label, power_labels n = Some label /\
    format_bytes (Some s) =
    POk (PyFloat (round3 (QArith_base.Qmake s (Z.to_pos (1024 ^ Z.of_nat n)))), label ++ "bytes").
Proof. apply format_bytes_range_gen. Qed.

Lemma format_bytes_power_of_1024_witness :
  (1 <= 1 <= 4)%nat /\ (1024 ^ Z.of_nat 1 < 1088 <= 1024 ^ Z.of_nat 2)%Z /\
  format_bytes (Some 1088%Z) = POk (PyFloat (QArith_base.Qmake 1062 1000), "kilobytes").
Proof.
  split; [lia|]. split; [cbn; lia|].
  destruct (format_bytes_power_of_1024 1088 1 ltac:(lia) ltac:(cbn; lia)) as (label & L & E).
  rewrite E. cbn in L. injection L as <-. vm_compute. reflexivity.
Defined.

(** X7: [format_bytes] raises [TypeError] on [None] (what
    [get_size_of_directory] returns for a missing path), [KeyError] for a
    size above [1024 ** 5] (there is no label past [tera]), and
    [OverflowError] when [size / 1024] is too large for a float. *)
Theorem format_bytes_errors :
  format_bytes None = PRaise (Exn TypeError) /\
  (forall s, (1024 ^ 5 < s < overflow_bound)%Z -> format_bytes (Some s) = PRaise (Exn KeyError)) /\
  (forall s, (overflow_bound <= s)%Z -> format_bytes (Some s) = PRaise OverflowError).
Proof.
  split; [reflexivity|]. split.
  - intros s [H1 H2]. apply format_bytes_keyerror; assumption.
  - apply format_bytes_overflow.
Qed.

Lemma format_bytes_total_ok (s : Z) : (s <= 1024 ^ 5)%Z -> exists v u, format_bytes (Some s) = POk (v, u).
Proof.
  intros H.
  destruct (Z.le_gt_cases s 1024) as [H0|H0].
  { rewrite format_bytes_small by exact H0. eauto. }
  assert (exists n, (1 <= n <= 4)%nat /\ (1024 ^ Z.of_nat n < s <= 1024 ^ Z.of_nat (S n))%Z)
    as (n & Hn & Hs).
  { destruct (Z.le_gt_cases s (1024 ^ 2)); [exists 1%nat; cbn; lia|].
    destruct (Z.le_gt_cases s (1024 ^ 3)); [exists 2%nat; cbn; lia|].
    destruct (Z.le_gt_cases s (1024 ^ 4)); [exists 3%nat; cbn; lia|].
    exists 4%nat; cbn; lia. }
  destruct (format_bytes_range_gen s n Hn Hs) as (label & _ & ->). eauto.
Qed.

(** X8: [format_bytes] of [automatic_foto_organization_tool.py] returns
    [(None, None)] exactly for [None] and for sizes above [1024 ** 5]; for
    every other size it returns the pair of the other script. *)
Theorem automatic_format_bytes_none_above_tera :
  Automatic.format_bytes None = (None, None) /\
  (forall s, Automatic.format_bytes (Some s) = (None, None) <-> (1024 ^ 5 < s)%Z) /\
  (forall s v u, format_bytes (Some s) = POk (v, u) ->
     Automatic.format_bytes (Some s) = (Some v, Some u)).
Proof.
  split; [reflexivity|]. split.
  - intros s. unfold Automatic.format_bytes. split.
    + intros H. destruct (Z.le_gt_cases s (1024 ^ 5)) as [Hs|Hs]; [|exact Hs].
      destruct (format_bytes_total_ok s Hs) as (v & u & E). rewrite E in H. discriminate.
    + intros Hs. destruct (Z.lt_ge_cases s overflow_bound) as [Ho|Ho].
      * rewrite format_bytes_keyerror by assumption. reflexivity.
      * rewrite format_bytes_overflow by assumption. reflexivity.
  - intros s v u E. unfold Automatic.format_bytes. rewrite E. reflexivity.
Qed.

Lemma flat_map_flat_map {A B C : Type} (f : A -> list B) (g : B -> list C) (l : list A) :
  flat_map g (flat_map f l) = flat_map (fun x => flat_map g (f x)) l.
Proof.
  induction l as [| x l IH]; [reflexivity |]. cbn [flat_map].
  rewrite flat_map_app, IH. reflexivity.
Qed.

Lemma Permutation_flat_map_ext {A B : Type} (f g : A -> list B) (l : list A) :
  (forall x, In x l -> Permutation (f x) (g x)) ->
  Permutation (flat_map f l) (flat_map g l).
Proof.
  induction l as [| x l IH]; intros H; [reflexivity |]. cbn [flat_map].
  apply Permutation_app; [apply H; left; reflexivity | apply IH; intros y Hy; apply H; right; exact Hy].
Qed.

Lemma flat_map_app_distr {A B : Type} (f g : A -> list B) (l : list A) :
  Permutation (flat_map f l ++ flat_map g l)%list (flat_map (fun x => f x ++ g x)%list l).
Proof.
  induction l as [| x l IH]; [reflexivity |]. cbn [flat_map].
  rewrite <- !app_assoc. apply Permutation_app_head.
  rewrite Permutation_app_swap_app. apply Permutation_app_head. exact IH.
Qed.

Lemma map_filter_flat_map {A B : Type} (p : A -> bool) (h : A -> B) (l : list A) :
  map h (filter p l) = flat_map (fun x => if p x then [h x] else []) l.
Proof.
  induction l as [| x l IH]; [reflexivity |]. cbn [filter flat_map].
  destruct (p x); cbn; rewrite IH; reflexivity.
Qed.

Lemma Permutation_filter_ext {A : Type} (p : A -> bool) (l l' : list A) :
  Permutation l l' -> Permutation (filter p l) (filter p l').
Proof.
  induction 1; cbn [filter].
  - constructor.
  - destruct (p x); [constructor |]; assumption.
  - destruct (p x), (p y); try constructor; reflexivity.
  - eapply Permutation_trans; eassumption.
Qed.

(** The paths listed by the bottom-up walk: every file, and every directory
    below the root. *)
Lemma walk_bottom_up_paths (e : entry) :
  forall dirpath n cs, e = DirE n cs ->
  Permutation
    (flat_map (fun '(root, dirs, files) =>
                 (map (py_join root) files ++ map (py_join root) dirs)%list)
              (Tree.walk_bottom_up dirpath e))
    (file_paths dirpath e ++
     flat_map (fun c => dir_paths (py_join dirpath (entry_name c)) c) cs)%list.
Proof.
  induction e as [m | m cs0 IH] using entry_ind'; intros dirpath n cs Heq; [discriminate |].
  injection Heq as <- <-. cbn [Tree.walk_bottom_up file_paths].
  rewrite flat_map_app, flat_map_flat_map. cbn [flat_map]. rewrite app_nil_r.
  unfold Tree.filenames, Tree.dirnames. rewrite !map_map, !map_filter_flat_map.
  rewrite flat_map_app_distr, flat_map_app_distr.
  rewrite flat_map_app_distr.
  apply Permutation_flat_map_ext. intros c Hc.
  rewrite Forall_forall in IH.
  destruct c as [k | k cs'].
  - reflexivity.
  - cbn [entry_name]. rewrite (IH _ Hc (py_join dirpath k) k cs' eq_refl).
    cbn [Tree.is_dir negb flat_map dir_paths Datatypes.app].
    rewrite <- app_assoc.
    apply Permutation_app_head. apply Permutation_sym, Permutation_cons_append.
Qed.

Lemma walk_top_down_files (e : entry) :
  forall dirpath n cs, e = DirE n cs ->
  Permutation
    (flat_map (fun '(path, dirs, files) => map (py_join path) files)
              (Tree.walk_top_down dirpath e))
    (file_paths dirpath e).
Proof.
  induction e as [m | m cs0 IH] using entry_ind'; intros dirpath n cs Heq; [discriminate |].
  injection Heq as <- <-. cbn [Tree.walk_top_down file_paths flat_map].
  rewrite flat_map_flat_map.
  unfold Tree.filenames. rewrite map_map, map_filter_flat_map.
  rewrite flat_map_app_distr.
  apply Permutation_flat_map_ext. intros c Hc.
  rewrite Forall_forall in IH.
  destruct c as [k | k cs']; cbn [Tree.is_dir negb entry_name Tree.walk_top_down flat_map file_paths].
  - reflexivity.
  - cbn [Datatypes.app]. exact (IH _ Hc _ k cs' eq_refl).
Qed.

Lemma fold_left_sizes_inner (g : string -> nat) (path : string) (files : list string) (acc : nat) :
  fold_left (fun total f => total + g (py_join path f)) files acc
  = acc + list_sum (map g (map (py_join path) files)).
Proof.
  revert acc. induction files as [| f files IH]; intros acc; cbn [fold_left map].
  - cbn [list_sum fold_right]. lia.
  - rewrite IH.
    change (list_sum (g (py_join path f) :: map g (map (py_join path) files)))
      with (g (py_join path f) + list_sum (map g (map (py_join path) files))).
    lia.
Qed.

Lemma fold_left_sizes (g : string -> nat) (w : list (string * list string * list string)) (acc : nat) :
  fold_left (fun total '(path, dirs, files) =>
               fold_left (fun total f => total + g (py_join path f)) files total) w acc
  = acc + list_sum (map g (flat_map (fun '(path, dirs, files) => map (py_join path) files) w)).
Proof.
  revert acc. induction w as [| [[path dirs] files] w IH]; intros acc; cbn [fold_left flat_map].
  - cbn [map list_sum fold_right]. lia.
  - rewrite IH, fold_left_sizes_inner, map_app, list_sum_app. lia.
Qed.

Lemma filter_none {A : Type} (f : A -> bool) (l : list A) :
  (forall x, In x l -> f x <> true) -> filter f l = [].
Proof.
  induction l as [| x l IH]; intros H; [reflexivity |]. cbn [filter].
  destruct (f x) eqn:Hx; [exfalso; apply (H x); [left | ]; auto |].
  apply IH. intros y Hy. apply H. right. exact Hy.
Qed.

Lemma isfile_In (top : string) (e : entry) (p : string) :
  Tree.isfile top (Some e) p = true <-> In p (file_paths top e).
Proof.
  unfold Tree.isfile. rewrite existsb_exists. split.
  - intros (q & Hq & Heq). apply String.eqb_eq in Heq. subst. exact Hq.
  - intros H. exists p. split; [exact H | apply String.eqb_refl].
Qed.

(** X9: [get_all_files_from_source] on a missing path or on a file returns
    nothing; on a directory it returns exactly the paths of the files below
    it. *)
Theorem get_all_files_from_source_files (src_path : string) :
  Tree.get_all_files_from_source src_path None = []
  /\ (forall n, Tree.get_all_files_from_source src_path (Some (FileE n)) = [])
  /\ (forall n cs p,
        In p (Tree.get_all_files_from_source src_path (Some (DirE n cs)))
        <-> In p (file_paths src_path (DirE n cs))).
Proof.
  split; [reflexivity | split; [reflexivity |]].
  intros n cs p. unfold Tree.get_all_files_from_source. rewrite filter_In, isfile_In.
  split; [intros [_ H]; exact H |]. intros H. split; [| exact H].
  apply (Permutation_in _ (Permutation_sym (walk_bottom_up_paths _ src_path n cs eq_refl))).
  apply in_or_app. left. exact H.
Qed.

(** X10: when no directory of the tree has the path of one of its files, the
    list returned by [get_all_files_from_source] is a permutation of the
    file paths: each file once (per path), and no directory. *)
Theorem get_all_files_from_source_perm (src_path n : string) (cs : list entry) :
  (forall p, In p (file_paths src_path (DirE n cs)) -> ~ In p (dir_paths src_path (DirE n cs))) ->
  Permutation (Tree.get_all_files_from_source src_path (Some (DirE n cs)))
              (file_paths src_path (DirE n cs)).
Proof.
  intros Hdisj. unfold Tree.get_all_files_from_source.
  rewrite (Permutation_filter_ext _ _ _ (walk_bottom_up_paths _ src_path n cs eq_refl)).
  rewrite filter_app.
  rewrite (forallb_filter_id _ (file_paths src_path (DirE n cs))).
  2:{ apply forallb_forall. intros p Hp. apply isfile_In. exact Hp. }
  match goal with |- Permutation (_ ++ filter ?f ?l) _ =>
    assert (Hnil : filter f l = []) end.
  { apply filter_none. intros p Hp Hf. apply isfile_In in Hf.
    apply (Hdisj p Hf). cbn [dir_paths]. right. exact Hp. }
  rewrite Hnil.
  rewrite app_nil_r. reflexivity.
Qed.

Lemma get_all_files_from_source_perm_witness :
  (forall p, In p (file_paths "/src" (DirE "src" [FileE "a.jpg"; DirE "d" [FileE "b.png"]]))
             -> ~ In p (dir_paths "/src" (DirE "src" [FileE "a.jpg"; DirE "d" [FileE "b.png"]])))
  /\ Permutation (Tree.get_all_files_from_source "/src" (Some (DirE "src" [FileE "a.jpg"; DirE "d" [FileE "b.png"]])))
                 ["/src/a.jpg"; "/src/d/b.png"].
Proof.
  assert (H : forall p, In p (file_paths "/src" (DirE "src" [FileE "a.jpg"; DirE "d" [FileE "b.png"]]))
             -> ~ In p (dir_paths "/src" (DirE "src" [FileE "a.jpg"; DirE "d" [FileE "b.png"]]))).
  { vm_compute. intros p [<- | [<- | []]] [H | [H | []]]; discriminate H. }
  split; [exact H |].
  exact (get_all_files_from_source_perm "/src" "src" _ H).
Defined.

(** X11: [get_size_of_directory] returns [None] on a missing path and [0] on a
    file (the walk of a file yields nothing); on a directory it returns the
    sum of the sizes of all the files below it. *)
Theorem get_size_of_directory_sum (start_path : string) (getsize : string -> nat) :
  Tree.get_size_of_directory start_path None getsize = None
  /\ (forall n, Tree.get_size_of_directory start_path (Some (FileE n)) getsize = Some 0)
  /\ (forall n cs,
        Tree.get_size_of_directory start_path (Some (DirE n cs)) getsize
        = Some (list_sum (map getsize (file_paths start_path (DirE n cs))))).
Proof.
  split; [reflexivity | split; [reflexivity |]].
  intros n cs. unfold Tree.get_size_of_directory. rewrite fold_left_sizes. cbn [Nat.add].
  f_equal. apply Permutation_list_sum, Permutation_map.
  exact (walk_top_down_files _ start_path n cs eq_refl).
Qed.

Lemma flat_map_ext_in {A B : Type} (f g : A -> list B) (l : list A) :
  (forall x, In x l -> f x = g x) -> flat_map f l = flat_map g l.
Proof.
  induction l as [| x l IH]; intros H; [reflexivity |]. cbn [flat_map].
  rewrite (H x (or_introl eq_refl)), IH; [reflexivity |].
  intros y Hy. apply H. right. exact Hy.
Qed.

Lemma walk_pass_dir (directory dirpath n : string) (cs : list entry) :
  dirpath <> directory -> cs <> [] ->
  walk_pass directory dirpath (DirE n cs)
  = Some (DirE n (flat_map (walk_step directory dirpath) cs)).
Proof.
  intros Hd Hcs. cbn [walk_pass]. destruct cs as [| c cs]; [contradiction |].
  cbn [andb]. reflexivity.
Qed.

Lemma flat_map_walk_step {B : Type} (directory dirpath : string) (g : entry -> list B) (cs : list entry) :
  flat_map g (flat_map (walk_step directory dirpath) cs)
  = flat_map (fun c => match walk_pass directory (py_join dirpath (entry_name c)) c with
                       | Some c' => g c' | None => [] end) cs.
Proof.
  rewrite flat_map_flat_map. apply flat_map_ext. intros c. unfold walk_step.
  destruct (walk_pass _ _ c); cbn; [apply app_nil_r | reflexivity].
Qed.

(** One walk keeps the paths of the files. *)
Lemma walk_pass_file_paths (directory : string) (e : entry) :
  forall dirpath,
  match walk_pass directory dirpath e with
  | Some e' => file_paths dirpath e' = file_paths dirpath e
  | None => file_paths dirpath e = []
  end.
Proof.
  induction e as [n | n cs IH] using entry_ind'; intros dirpath; [reflexivity |].
  rewrite Forall_forall in IH. cbn [walk_pass].
  destruct cs as [| c0 cs0]; [destruct (_ && _); reflexivity |]. cbn [andb].
  set (cs := c0 :: cs0) in *. cbn [file_paths]. fold (walk_step directory dirpath).
    rewrite flat_map_walk_step. apply flat_map_ext_in.
    intros c Hc. specialize (IH c Hc (py_join dirpath (entry_name c))).
    destruct (walk_pass _ _ c) as [c' |] eqn:Hw; [| symmetry; exact IH].
    rewrite (walk_pass_name _ _ _ _ Hw). exact IH.
Qed.

(** X12: whatever the number of walks, [delete_empty_folders] removes no file:
    the paths of the files of the tree are the same, in the same order. *)
Theorem delete_empty_folders_keeps_files (directory : string) (levels : nat) (t : entry) :
  file_paths directory (delete_empty_folders directory levels t) = file_paths directory t.
Proof.
  unfold delete_empty_folders. induction levels as [| k IH]; [reflexivity |].
  rewrite Nat.iter_succ. rewrite <- IH.
  pose proof (walk_pass_file_paths directory (Nat.iter k (walk_pass_root directory) t) directory) as H.
  rewrite walk_pass_root_spec in H. exact H.
Qed.

Lemma valid_name_join (p m : string) :
  valid_name m = true -> String.length p < String.length (py_join p m).
Proof.
  unfold valid_name. intros H. apply andb_prop in H as [H1 H2].
  destruct m as [| a m]; [discriminate H1 |].
  apply py_join_longer; [| discriminate].
  cbn [has_char] in H2. destruct (Ascii.eqb_spec a "/") as [-> | Hne]; [discriminate H2 |].
  unfold starts_with_slash.
  destruct a as [b1 b2 b3 b4 b5 b6 b7 b8].
  destruct b1, b2, b3, b4, b5, b6, b7, b8; try reflexivity.
  exfalso. apply Hne. reflexivity.
Qed.

Lemma names_ok_name (e : entry) : names_ok e = true -> valid_name (entry_name e) = true.
Proof.
  destruct e as [n | n cs]; cbn [names_ok entry_name]; [auto |].
  intros H. apply andb_prop in H as [H _]. exact H.
Qed.

Lemma list_max_walk_step (directory dirpath : string) (f g : entry -> nat) (cs : list entry) :
  (forall c, In c cs ->
     match walk_pass directory (py_join dirpath (entry_name c)) c with
     | Some c' => f c' = pred (g c)
     | None => pred (g c) = 0
     end) ->
  list_max (map f (flat_map (walk_step directory dirpath) cs)) = pred (list_max (map g cs)).
Proof.
  induction cs as [| c cs IH]; intros H; [reflexivity |].
  cbn [flat_map map]. rewrite map_app, list_max_app.
  change (list_max (g c :: map g cs)) with (Nat.max (g c) (list_max (map g cs))).
  rewrite IH by (intros d Hd; apply H; right; exact Hd).
  specialize (H c (or_introl eq_refl)). unfold walk_step.
  destruct (walk_pass _ _ c); cbn [map list_max fold_right]; lia.
Qed.

Lemma existsb_walk_step (directory dirpath : string) (h : entry -> bool) (cs : list entry) :
  (forall c, In c cs ->
     match walk_pass directory (py_join dirpath (entry_name c)) c with
     | Some c' => h c' = h c
     | None => h c = false
     end) ->
  existsb h (flat_map (walk_step directory dirpath) cs) = existsb h cs.
Proof.
  induction cs as [| c cs IH]; intros H; [reflexivity |].
  cbn [flat_map existsb]. rewrite existsb_app.
  rewrite IH by (intros d Hd; apply H; right; exact Hd).
  specialize (H c (or_introl eq_refl)). unfold walk_step.
  destruct (walk_pass _ _ c); cbn [existsb]; rewrite H; [rewrite orb_false_r |]; reflexivity.
Qed.

Lemma forallb_walk_step (directory dirpath : string) (h : entry -> bool) (cs : list entry) :
  (forall c, In c cs ->
     match walk_pass directory (py_join dirpath (entry_name c)) c with
     | Some c' => h c' = true
     | None => True
     end) ->
  forallb h (flat_map (walk_step directory dirpath) cs) = true.
Proof.
  induction cs as [| c cs IH]; intros H; [reflexivity |].
  cbn [flat_map]. rewrite forallb_app.
  rewrite IH by (intros d Hd; apply H; right; exact Hd).
  specialize (H c (or_introl eq_refl)). unfold walk_step.
  destruct (walk_pass _ _ c); cbn [forallb]; [rewrite H |]; reflexivity.
Qed.

Lemma fileless_height (e : entry) : has_file e = false -> 1 <= height e.
Proof. destruct e; cbn [has_file height]; [discriminate | lia]. Qed.

Lemma list_max_In (x : nat) (l : list nat) : In x l -> x <= list_max l.
Proof.
  intros H. assert (Hl : list_max l <= list_max l) by reflexivity.
  apply list_max_le in Hl. rewrite Forall_forall in Hl. exact (Hl x H).
Qed.

(** One walk below the root: a directory with no file loses one level of
    height, every other directory keeps its files, and the depth measure goes
    down by one. *)
Lemma walk_pass_depth (directory : string) (e : entry) :
  forall dirpath, String.length directory < String.length dirpath -> names_ok e = true ->
  match walk_pass directory dirpath e with
  | None => has_file e = false /\ height e = 1 /\ removal_depth e = 1
  | Some e' => names_ok e' = true /\ has_file e' = has_file e
               /\ removal_depth e' = pred (removal_depth e)
               /\ (has_file e = false -> height e' = pred (height e))
  end.
Proof.
  induction e as [n | n cs IH] using entry_ind'; intros dirpath Hlen Hok.
  - cbn [walk_pass]. split; [exact Hok |]. split; [reflexivity |]. split; [reflexivity | discriminate].
  - rewrite Forall_forall in IH.
    assert (Hd : dirpath <> directory) by (intros ->; lia).
    destruct cs as [| c0 cs0].
    + cbn [walk_pass andb]. destruct (String.eqb_spec dirpath directory); [contradiction |].
      cbn. repeat split.
    + rewrite walk_pass_dir by (assumption || discriminate).
      set (cs := c0 :: cs0) in *.
      cbn [names_ok] in Hok. apply andb_prop in Hok as [Hn Hcs].
      assert (Hc : forall c, In c cs ->
        match walk_pass directory (py_join dirpath (entry_name c)) c with
        | None => has_file c = false /\ height c = 1 /\ removal_depth c = 1
        | Some c' => names_ok c' = true /\ has_file c' = has_file c
                     /\ removal_depth c' = pred (removal_depth c)
                     /\ (has_file c = false -> height c' = pred (height c))
        end).
      { intros c Hin. rewrite forallb_forall in Hcs. specialize (Hcs c Hin).
        apply IH; [exact Hin | | exact Hcs].
        pose proof (valid_name_join dirpath (entry_name c) (names_ok_name c Hcs)). lia. }
      assert (Hhas : existsb has_file (flat_map (walk_step directory dirpath) cs)
                     = existsb has_file cs).
      { apply existsb_walk_step. intros c Hin. specialize (Hc c Hin).
        destruct (walk_pass _ _ c); tauto. }
      assert (Hrd : list_max (map removal_depth (flat_map (walk_step directory dirpath) cs))
                    = pred (list_max (map removal_depth cs))).
      { apply list_max_walk_step. intros c Hin. specialize (Hc c Hin).
        destruct (walk_pass _ _ c) as [c' |]; [tauto |]. destruct Hc as (_ & _ & ->). reflexivity. }
      assert (Hht : existsb has_file cs = false ->
                    S (list_max (map height (flat_map (walk_step directory dirpath) cs)))
                    = list_max (map height cs)).
      { intros Hno. rewrite (list_max_walk_step directory dirpath height height).
        - assert (1 <= list_max (map height cs)); [| lia].
          assert (Hc0 : has_file c0 = false).
          { cbn [cs existsb] in Hno. apply orb_false_iff in Hno. tauto. }
          pose proof (fileless_height c0 Hc0).
          pose proof (list_max_In (height c0) (map height cs) (in_map height cs c0 (or_introl eq_refl))).
          lia.
        - intros c Hin. assert (Hcf : has_file c = false).
          { apply not_true_iff_false. intros Ht. apply not_true_iff_false in Hno.
            apply Hno, existsb_exists. eauto. }
          specialize (Hc c Hin). destruct (walk_pass _ _ c) as [c' |].
          + destruct Hc as (_ & _ & _ & Hh). apply Hh, Hcf.
          + destruct Hc as (_ & -> & _). reflexivity. }
      cbn [names_ok has_file removal_depth height].
      rewrite Hn, Hhas. cbn [andb].
      split; [| split; [reflexivity | split]].
      * apply forallb_walk_step. intros c Hin. specialize (Hc c Hin).
        destruct (walk_pass _ _ c); tauto.
      * destruct (existsb has_file cs) eqn:E; [exact Hrd |].
        cbn [height]. rewrite Hht by reflexivity. reflexivity.
      * intros Hno. cbn [height]. rewrite Hht by exact Hno. reflexivity.
Qed.

Lemma removal_depth_le_height (e : entry) : removal_depth e <= height e.
Proof.
  induction e as [n | n cs IH] using entry_ind'; [reflexivity |].
  cbn [removal_depth]. destruct (has_file (DirE n cs)); [| reflexivity].
  cbn [height]. apply le_S. apply list_max_le, Forall_forall.
  intros k Hk. apply in_map_iff in Hk as (c & <- & Hc).
  rewrite Forall_forall in IH.
  pose proof (list_max_In (height c) (map height cs) (in_map height cs c Hc)).
  specialize (IH c Hc). lia.
Qed.

Lemma removal_depth_zero (e : entry) :
  forall dirpath, removal_depth e = 0 -> dirs_without_files dirpath e = [].
Proof.
  induction e as [n | n cs IH] using entry_ind'; intros dirpath H; [reflexivity |].
  cbn [removal_depth] in H. cbn [dirs_without_files].
  destruct (has_file (DirE n cs)); [| cbn [height] in H; discriminate H].
  cbn [Datatypes.app]. rewrite Forall_forall in IH.
  assert (Hz : list_max (map removal_depth cs) <= 0) by lia.
  apply list_max_le in Hz. rewrite Forall_forall in Hz. clear H.
  induction cs as [| c cs IHcs]; [reflexivity |]. cbn [flat_map].
  rewrite (IH c (or_introl eq_refl)).
  - apply IHcs.
    + intros x Hx. apply IH. right. exact Hx.
    + intros x Hx. apply Hz. right. exact Hx.
  - pose proof (Hz _ (in_map removal_depth (c :: cs) c (or_introl eq_refl))). lia.
Qed.

(** The walks from the root: the root stays, and the depth measure of its
    entries goes down by one per walk. *)
Lemma delete_empty_folders_depth (directory n : string) (levels : nat) (cs : list entry) :
  names_ok (DirE n cs) = true ->
  exists cs', delete_empty_folders directory levels (DirE n cs) = DirE n cs'
  /\ names_ok (DirE n cs') = true
  /\ list_max (map removal_depth cs') = list_max (map removal_depth cs) - levels.
Proof.
  intros Hok. unfold delete_empty_folders. induction levels as [| k IH].
  - exists cs. repeat split; [exact Hok | lia].
  - destruct IH as (cs1 & Hit & Hok1 & Hm). rewrite Nat.iter_succ, Hit.
    cbn [names_ok] in Hok1. apply andb_prop in Hok1 as [Hn Hcs].
    rewrite forallb_forall in Hcs.
    assert (Hc : forall c, In c cs1 ->
      match walk_pass directory (py_join directory (entry_name c)) c with
      | None => has_file c = false /\ height c = 1 /\ removal_depth c = 1
      | Some c' => names_ok c' = true /\ has_file c' = has_file c
                   /\ removal_depth c' = pred (removal_depth c)
                   /\ (has_file c = false -> height c' = pred (height c))
      end).
    { intros c Hin. apply walk_pass_depth; [| exact (Hcs c Hin)].
      exact (valid_name_join directory (entry_name c) (names_ok_name c (Hcs c Hin))). }
    exists (flat_map (walk_step directory directory) cs1).
    unfold walk_pass_root. cbn [walk_pass]. rewrite String.eqb_refl, andb_false_r.
    split; [reflexivity | split].
    + cbn [names_ok]. rewrite Hn. apply forallb_walk_step.
      intros c Hin. specialize (Hc c Hin). destruct (walk_pass _ _ c); tauto.
    + rewrite list_max_walk_step with (g := removal_depth); [lia |].
      intros c Hin. specialize (Hc c Hin).
      destruct (walk_pass _ _ c) as [c' |]; [tauto |]. destruct Hc as (_ & _ & ->). reflexivity.
Qed.

Lemma delete_empty_folders_file (directory n : string) (levels : nat) :
  delete_empty_folders directory levels (FileE n) = FileE n.
Proof.
  unfold delete_empty_folders. induction levels as [| k IH]; [reflexivity |].
  rewrite Nat.iter_succ, IH. reflexivity.
Qed.

(** X13: with valid names, [delete_empty_folders(directory, levels)] leaves no
    directory without a file below the root once [levels] is at least the
    height of the tree minus one: each walk removes one more level of empty
    directories. *)
Theorem delete_empty_folders_removes_fileless (directory : string) (levels : nat) (t : entry) :
  names_ok t = true -> height t <= S levels ->
  subdirs_without_files directory (delete_empty_folders directory levels t) = [].
Proof.
  intros Hok Hh. destruct t as [m | n cs].
  - rewrite delete_empty_folders_file. reflexivity.
  - destruct (delete_empty_folders_depth directory n levels cs Hok) as (cs' & -> & _ & Hm).
    cbn [subdirs_without_files].
    assert (Hle : list_max (map removal_depth cs) <= levels).
    { cbn [height] in Hh. apply list_max_le, Forall_forall. intros k Hk.
      apply in_map_iff in Hk as (c & <- & Hc).
      pose proof (removal_depth_le_height c).
      pose proof (list_max_In (height c) (map height cs) (in_map height cs c Hc)). lia. }
    assert (H0 : list_max (map removal_depth cs') <= 0) by lia.
    apply list_max_le in H0. rewrite Forall_forall in H0.
    transitivity (flat_map (fun _ : entry => @nil string) cs').
    + apply flat_map_ext_in. intros c Hc. apply removal_depth_zero.
      specialize (H0 _ (in_map removal_depth cs' c Hc)). lia.
    + clear. induction cs' as [| c cs' IH]; [reflexivity | exact IH].
Qed.

Lemma delete_empty_folders_removes_fileless_witness :
  names_ok (DirE "src" [DirE "a" [DirE "b" [DirE "c" []]]; DirE "d" [FileE "x.jpg"]]) = true
  /\ height (DirE "src" [DirE "a" [DirE "b" [DirE "c" []]]; DirE "d" [FileE "x.jpg"]]) <= S 3
  /\ subdirs_without_files "/src"
       (delete_empty_folders "/src" 3
          (DirE "src" [DirE "a" [DirE "b" [DirE "c" []]]; DirE "d" [FileE "x.jpg"]])) = [].
Proof.
  split; [vm_compute; reflexivity | split; [vm_compute; lia |]].
  apply delete_empty_folders_removes_fileless; [vm_compute; reflexivity | vm_compute; lia].
Defined.

Lemma parent_dirs_go_lower (acc s d : string) :
  In d (parent_dirs_go acc s) -> String.length acc <= String.length d.
Proof.
  revert acc. induction s as [|c s IH]; intros acc H; cbn [parent_dirs_go] in H; [contradiction|].
  assert (Hr : In d (parent_dirs_go (acc ++ String c EmptyString) s) ->
               String.length acc <= String.length d).
  { intros Hd. apply IH in Hd. rewrite string_length_app in Hd. cbn in Hd. lia. }
  destruct ((c =? "/")%char && negb (acc =? "")); [destruct H as [<-|H]|]; auto.
Qed.

Lemma parent_dirs_go_upper (acc s d : string) :
  In d (parent_dirs_go acc s) -> String.length d < String.length acc + String.length s.
Proof.
  revert acc. induction s as [|c s IH]; intros acc H; cbn [parent_dirs_go] in H; [contradiction|].
  assert (Hr : In d (parent_dirs_go (acc ++ String c EmptyString) s) ->
               String.length d < String.length acc + String.length (String c s)).
  { intros Hd. apply IH in Hd. rewrite string_length_app in Hd. cbn in *. lia. }
  destruct ((c =? "/")%char && negb (acc =? "")); [destruct H as [<-|H]|]; auto.
  cbn. lia.
Qed.

Lemma parent_dirs_go_NoDup (acc s : string) : NoDup (parent_dirs_go acc s).
Proof.
  revert acc. induction s as [|c s IH]; intros acc; cbn [parent_dirs_go]; [constructor|].
  destruct ((c =? "/")%char && negb (acc =? "")); [| apply IH].
  constructor; [| apply IH].
  intros H. apply parent_dirs_go_lower in H. rewrite string_length_app in H. cbn in H. lia.
Qed.

(** [os.makedirs] creates each missing directory once. *)
Lemma makedirs_NoDup (f : fs) (name : string) : NoDup f -> NoDup (makedirs f name).
Proof.
  intros Hf. unfold makedirs. apply NoDup_app; [exact Hf | |].
  - apply NoDup_filter, NoDup_app; [apply parent_dirs_go_NoDup | constructor; [intros [] | constructor] |].
    intros a Ha [<- | []]. apply parent_dirs_go_upper in Ha. cbn in Ha. lia.
  - intros a Ha Hb. apply filter_In in Hb as [_ Hb].
    apply path_exists_In in Ha. rewrite Ha in Hb. discriminate.
Qed.

Lemma makedirs_if_NoDup (f : fs) (base : string) :
  NoDup f -> NoDup (if negb (path_exists f base) then makedirs f base else f).
Proof. intros H. destruct (negb _); [apply makedirs_NoDup |]; exact H. Qed.

Lemma makedirs_if_incl (f : fs) (base : string) :
  incl f (if negb (path_exists f base) then makedirs f base else f).
Proof. destruct (negb _); [apply makedirs_incl | apply incl_refl]. Qed.

(** [create_dst_path_for_file] only adds directories and always returns a
    path that does not exist. *)
Lemma create_dst_path_for_file_fresh (f : fs) (base_path filename extension : string) :
  let '(f1, r) := create_dst_path_for_file f base_path filename extension in
  incl f f1 /\ (NoDup f -> NoDup f1)
  /\ exists dst, r = Some dst /\ path_exists f1 dst = false.
Proof.
  unfold create_dst_path_for_file.
  set (f1 := if negb (path_exists f base_path) then makedirs f base_path else f).
  assert (H1 : incl f f1) by apply makedirs_if_incl.
  assert (H2 : NoDup f -> NoDup f1) by apply makedirs_if_NoDup.
  destruct (path_exists f1 _) eqn:E.
  - split; [exact H1 | split; [exact H2 |]].
    destruct (probe f1 base_path filename (py_lower extension) (S (length f1)) 1) as [p |] eqn:P.
    + apply probe_some in P as (j & _ & _ & Hp & _). exists p. split; [reflexivity | exact Hp].
    + exfalso. exact (probe_total _ _ _ _ P).
  - split; [exact H1 | split; [exact H2 |]]. eexists. split; [reflexivity | exact E].
Qed.

Lemma fs_move_NoDup (f : fs) (src dst : string) :
  NoDup f -> path_exists f dst = false -> NoDup (fs_move f src dst).
Proof.
  intros Hf Hd. unfold fs_move. apply NoDup_app; [apply NoDup_filter, Hf | constructor; [intros [] | constructor] |].
  intros a Ha [<- | []]. apply filter_In in Ha as [Ha _].
  apply path_exists_In in Ha. rewrite Ha in Hd. discriminate.
Qed.

Lemma fs_move_keeps (f : fs) (src dst q : string) :
  In q f -> q <> src -> In q (fs_move f src dst).
Proof.
  intros Hq Hne. unfold fs_move. apply in_or_app. left. apply filter_In. split; [exact Hq |].
  destruct (String.eqb_spec q src); [contradiction | reflexivity].
Qed.

Lemma exif_except_raise (image : option pil_image) (image_path : string) (x : exn) :
  exif_except image image_path = Raise x -> x = NameError \/ x = IndexError.
Proof.
  unfold exif_except. destruct image; [| intros H; injection H as <-; auto].
  destruct (py_split_dot _) as [| a [| b r]]; intros H; try (injection H as <-; auto); discriminate.
Qed.

(** One image of the loop: the file system keeps every path but the image's
    and gains no duplicate; the image goes to exactly one of the success and
    problem lists; the only exceptions are those of the [except:] branch. *)
Lemma process_image_spec (e : env) (o : string) (y : bool) (st : img_state) (p : string) :
  match process_image e o y st p with
  | Ok st' =>
      (NoDup (st_fs st) -> NoDup (st_fs st'))
      /\ (forall q, In q (st_fs st) -> q <> p -> In q (st_fs st'))
      /\ ((exists d, success_list st' = success_list st ++ [d]
                     /\ copy_list st' = (if py_contains "Kopie" d then copy_list st ++ [d]
                                         else copy_list st)
                     /\ problem_list st' = problem_list st)
          \/ (success_list st' = success_list st /\ copy_list st' = copy_list st
              /\ problem_list st' = problem_list st ++ [p]))%list
  | Raise x => x = NameError \/ x = IndexError
  end.
Proof.
  unfold process_image. destruct (exif_try e (st_image st) p) as [image r].
  destruct r as [[[[ys yms] fn] ext] | x].
  - cbn [res_bind].
    match goal with |- context [create_dst_path_for_file ?F ?B ?N ?E] =>
      pose proof (create_dst_path_for_file_fresh F B N E) as C;
      destruct (create_dst_path_for_file F B N E) as [f1 dst] end.
    destruct C as (Hi & Hn & d & -> & Hd).
    destruct (move_ok e p d); cbn [st_fs success_list copy_list problem_list].
    + split; [intros H; apply fs_move_NoDup; auto |]. split.
      * intros q Hq Hne. apply fs_move_keeps; auto.
      * left. exists d. auto.
    + split; [exact Hn |]. split; [intros q Hq _; apply Hi, Hq |]. right. auto.
  - cbn [res_bind]. destruct (exif_except image p) as [[fn ext] | x'] eqn:X.
    + cbn [res_bind].
      match goal with |- context [create_dst_path_for_file ?F ?B ?N ?E] =>
        pose proof (create_dst_path_for_file_fresh F B N E) as C;
        destruct (create_dst_path_for_file F B N E) as [f1 dst] end.
      destruct C as (Hi & Hn & d & -> & Hd).
      destruct (move_ok e p d); cbn [st_fs success_list copy_list problem_list].
      * split; [intros H; apply fs_move_NoDup; auto |]. split.
        -- intros q Hq Hne. apply fs_move_keeps; auto.
        -- left. exists d. auto.
      * split; [exact Hn |]. split; [intros q Hq _; apply Hi, Hq |]. right. auto.
    + cbn [res_bind]. exact (exif_except_raise _ _ _ X).
Qed.

Lemma process_images_spec (e : env) (o : string) (y : bool) (imgs : list string) :
  forall st,
  match process_images e o y st imgs with
  | Ok st' =>
      (NoDup (st_fs st) -> NoDup (st_fs st'))
      /\ (forall q, In q (st_fs st) -> ~ In q imgs -> In q (st_fs st'))
      /\ length (success_list st') + length (problem_list st')
         = length (success_list st) + length (problem_list st) + length imgs
      /\ (copy_list st = filter (py_contains "Kopie") (success_list st) ->
          copy_list st' = filter (py_contains "Kopie") (success_list st'))
      /\ incl (problem_list st') (problem_list st ++ imgs)
  | Raise x => x = NameError \/ x = IndexError
  end.
Proof.
  induction imgs as [| p imgs IH]; intros st; cbn [process_images].
  - split; [auto | split; [auto | split; [cbn; lia | split; [auto |]]]].
    rewrite app_nil_r. apply incl_refl.
  - pose proof (process_image_spec e o y st p) as Hp.
    destruct (process_image e o y st p) as [st1 | x]; [cbn [res_bind] | exact Hp].
    specialize (IH st1). destruct (process_images e o y st1 imgs) as [st' | x]; [| exact IH].
    destruct Hp as (Hn1 & Hk1 & Hl1). destruct IH as (Hn & Hk & Hlen & Hc & Hpr).
    split; [auto |]. split.
    { intros q Hq Hnot. apply Hk.
      - apply Hk1; [exact Hq |]. intros ->. apply Hnot. left. reflexivity.
      - intros H. apply Hnot. right. exact H. }
    destruct Hl1 as [(d & Hs & Hcp & Hpp) | (Hs & Hcp & Hpp)].
    + split; [rewrite Hlen, Hs, Hpp, length_app; cbn; lia |]. split.
      * intros Hc0. apply Hc. rewrite Hcp, Hs, filter_app, <- Hc0. cbn [filter].
        destruct (py_contains "Kopie" d); rewrite ?app_nil_r; reflexivity.
      * rewrite Hpp in Hpr. intros q Hq. apply Hpr in Hq.
        apply in_app_or in Hq as [Hq | Hq]; apply in_or_app; [left; exact Hq | right; right; exact Hq].
    + split; [rewrite Hlen, Hs, Hpp, length_app; cbn; lia |]. split.
      * intros Hc0. apply Hc. rewrite Hcp, Hs. exact Hc0.
      * rewrite Hpp in Hpr. intros q Hq. apply Hpr in Hq.
        rewrite <- app_assoc in Hq. apply in_app_or in Hq as [Hq | [<- | Hq]].
        -- apply in_or_app. left. exact Hq.
        -- apply in_or_app. right. left. reflexivity.
        -- apply in_or_app. right. right. exact Hq.
Qed.


(** X15: the image loop never overwrites a file: every destination is a free
    path (so a file system without duplicate paths stays so), and every path
    that is not one of the images is still there afterwards. *)
Theorem extract_exif_never_overwrites (e : env) (cfg : config) (f : fs) (imgs : list string) :
  match extract_exif_from_image_and_move_to_dest_folder e cfg f imgs with
  | Ok (f', _, _, _) =>
      (NoDup f -> NoDup f') /\ (forall q, In q f -> ~ In q imgs -> In q f')
  | Raise _ => True
  end.
Proof.
  unfold extract_exif_from_image_and_move_to_dest_folder.
  match goal with |- context [process_images e ?O ?Y ?S imgs] =>
    pose proof (process_images_spec e O Y imgs S) as H;
    destruct (process_images e O Y S imgs) as [st | x] end; [cbn [res_bind] | exact I].
  destruct H as (Hn & Hk & _). destruct (Nat.eqb _ _); [| exact I].
  split; [exact Hn | exact Hk].
Qed.

Lemma split_dot_go_nonempty (cur s : string) : exists x r, split_dot_go cur s = x :: r.
Proof.
  revert cur. induction s as [| c s IH]; intros cur; cbn [split_dot_go]; [eauto |].
  destruct (c =? ".")%char; [eauto | apply IH].
Qed.

(** [str.split('.')] has a second field exactly when the string has a dot. *)
Lemma split_dot_go_fields (cur s : string) :
  match split_dot_go cur s with
  | _ :: _ :: _ => has_char "." s = true
  | _ => has_char "." s = false
  end.
Proof.
  revert cur. induction s as [| c s IH]; intros cur; cbn [split_dot_go has_char]; [reflexivity |].
  destruct (Ascii.eqb_spec c ".") as [-> | Hne].
  - destruct (split_dot_go_nonempty "" s) as (x & r & ->). reflexivity.
  - cbn [orb]. apply IH.
Qed.

Lemma move_other_file_spec (e : env) (cfg : config) (f : fs) (s p : list string) (file : string) :
  match move_other_file e cfg (f, s, p) file with
  | Ok (f', s', p') =>
      has_char "." (py_basename file) = true
      /\ ((s' = s ++ [file] /\ p' = p) \/ (s' = s /\ p' = p ++ [file]))%list
      /\ (NoDup f -> NoDup f') /\ (forall q, In q f -> q <> file -> In q f')
  | Raise x => x = IndexError /\ has_char "." (py_basename file) = false
  end.
Proof.
  unfold move_other_file. pose proof (split_dot_go_fields "" (py_basename file)) as Hs.
  unfold py_split_dot. destruct (split_dot_go "" (py_basename file)) as [| fn [| ext more]];
    [split; [reflexivity | exact Hs] | split; [reflexivity | exact Hs] |].
  set (base := py_join (py_join (destination_path cfg) "Other Files") (ext ++ "_Files")).
  set (f0 := if negb (path_exists f base) then makedirs f base else f).
  pose proof (create_dst_path_for_file_fresh f0 base fn ext) as C.
  destruct (create_dst_path_for_file f0 base fn ext) as [f1 dst].
  destruct C as (Hi & Hn & d & -> & Hd).
  assert (Hi0 : incl f f0) by apply makedirs_if_incl.
  assert (Hn0 : NoDup f -> NoDup f0) by apply makedirs_if_NoDup.
  destruct (move_ok e file d).
  - split; [exact Hs | split; [left; auto | split]].
    + intros H. apply fs_move_NoDup; auto.
    + intros q Hq Hne. apply fs_move_keeps; auto.
  - split; [exact Hs | split; [right; auto | split]].
    + auto.
    + intros q Hq _. auto.
Qed.

Lemma move_other_files_go_spec (e : env) (cfg : config) (files : list string) :
  forall f s p,
  match move_other_files_go e cfg (f, s, p) files with
  | Ok (f', s', p') =>
      Permutation (s' ++ p') ((s ++ p) ++ files)
      /\ Forall (fun file => has_char "." (py_basename file) = true) files
      /\ (NoDup f -> NoDup f') /\ (forall q, In q f -> ~ In q files -> In q f')
  | Raise x => x = IndexError /\ Exists (fun file => has_char "." (py_basename file) = false) files
  end%list.
Proof.
  induction files as [| file files IH]; intros f s p; cbn [move_other_files_go].
  - rewrite app_nil_r. split; [reflexivity | split; [constructor | split; auto]].
  - pose proof (move_other_file_spec e cfg f s p file) as H1.
    destruct (move_other_file e cfg (f, s, p) file) as [[[f1 s1] p1] | x]; cbn [res_bind].
    + destruct H1 as (Hdot & Hl & Hn1 & Hk1).
      specialize (IH f1 s1 p1).
      destruct (move_other_files_go e cfg (f1, s1, p1) files) as [[[f' s'] p'] | x].
      * destruct IH as (Hperm & Hall & Hn & Hk). split; [| split; [constructor; auto | split; [auto |]]].
        -- rewrite Hperm. destruct Hl as [[-> ->] | [-> ->]].
           ++ rewrite <- !app_assoc. apply Permutation_app_head.
              cbn [Datatypes.app]. apply Permutation_middle.
           ++ rewrite <- !app_assoc. reflexivity.
        -- intros q Hq Hnot. apply Hk.
           ++ apply Hk1; [exact Hq |]. intros ->. apply Hnot. left. reflexivity.
           ++ intros H. apply Hnot. right. exact H.
      * destruct IH as [-> Hex]. split; [reflexivity | apply Exists_cons_tl, Hex].
    + destruct H1 as [-> Hno]. split; [reflexivity | apply Exists_cons_hd, Hno].
Qed.


(** X17: [move_other_files] never overwrites a file: every destination is a
    free path (so a file system without duplicate paths stays so), and every
    path that is not one of the moved files is still there afterwards. *)
Theorem move_other_files_never_overwrites (e : env) (cfg : config) (f : fs) (files : list string) :
  match move_other_files e cfg f files with
  | Ok (f', _, _) => (NoDup f -> NoDup f') /\ (forall q, In q f -> ~ In q files -> In q f')
  | Raise _ => True
  end.
Proof.
  unfold move_other_files. pose proof (move_other_files_go_spec e cfg files f [] []) as H.
  destruct (move_other_files_go e cfg (f, [], []) files) as [[[f' s'] p'] | x]; [| exact I].
  destruct H as (_ & _ & Hn & Hk). split; [exact Hn | exact Hk].
Qed.

Lemma getsize_isfile (st : store) (p : string) :
  (getsize st p = Raise OSError <-> isfile st p = false)
  /\ (isfile st p = true -> exists n, getsize st p = Ok n).
Proof.
  unfold getsize, isfile.
  induction st as [| [q n] st IH]; cbn [find existsb].
  - split; [split; reflexivity | discriminate].
  - destruct (q =? p); cbn [orb]; [| exact IH].
    split; [split; discriminate | eauto].
Qed.

Lemma getsize_raise (st : store) (p : string) (x : exn) :
  getsize st p = Raise x -> x = OSError.
Proof. unfold getsize. destruct (find _ st) as [[q n] |]; congruence. Qed.

Lemma compare_sizes_spec (st : store) (quene : list string) :
  forall deleted_files problem_files,
  match compare_sizes st quene deleted_files problem_files with
  | Ok (d', p') =>
      (exists dn, d' = deleted_files ++ dn
         /\ forall file, In file dn -> In file quene
              /\ exists n, getsize st file = Ok n /\ getsize st (org_file_of file) = Ok n)
      /\ (exists pn, p' = problem_files ++ pn
         /\ forall file reason, In (file, reason) pn -> In file quene
              /\ ((reason = "No file" /\ isfile st file = false)
                  \/ (reason = "Size does not match"
                      /\ exists n m, getsize st file = Ok n
                         /\ getsize st (org_file_of file) = Ok m /\ n <> m)))
  | Raise x => x = OSError
  end%list.
Proof.
  induction quene as [| file rest IH]; intros d p; cbn [compare_sizes].
  - split; exists []; rewrite app_nil_r; (split; [reflexivity |]); intros ? ?; contradiction.
  - assert (Hnext : (forall (d1 : list string) (p1 : list (string * string)), (exists dn, d1 = d ++ dn /\ forall f, In f dn -> f = file
                          /\ exists n, getsize st f = Ok n /\ getsize st (org_file_of f) = Ok n) ->
                    (exists pn, p1 = p ++ pn /\ forall f r, In (f, r) pn -> f = file
                          /\ ((r = "No file" /\ isfile st f = false)
                              \/ (r = "Size does not match"
                                  /\ exists n m, getsize st f = Ok n
                                     /\ getsize st (org_file_of f) = Ok m /\ n <> m))) ->
                    match compare_sizes st rest d1 p1 with
                    | Ok (d', p') =>
                        (exists dn, d' = d ++ dn
                           /\ forall f, In f dn -> In f (file :: rest)
                                /\ exists n, getsize st f = Ok n /\ getsize st (org_file_of f) = Ok n)
                        /\ (exists pn, p' = p ++ pn
                           /\ forall f r, In (f, r) pn -> In f (file :: rest)
                                /\ ((r = "No file" /\ isfile st f = false)
                                    \/ (r = "Size does not match"
                                        /\ exists n m, getsize st f = Ok n
                                           /\ getsize st (org_file_of f) = Ok m /\ n <> m)))
                    | Raise x => x = OSError
                    end)%list).
    { intros d1 p1 (dn1 & -> & Hd1) (pn1 & -> & Hp1).
      specialize (IH (d ++ dn1) (p ++ pn1))%list.
      destruct (compare_sizes st rest _ _) as [[d' p'] | x]; [| exact IH].
      destruct IH as ((dn & -> & Hd) & (pn & -> & Hp)). split.
      - exists (dn1 ++ dn)%list. split; [symmetry; apply app_assoc |].
        intros f Hin. apply in_app_or in Hin as [Hin | Hin].
        + destruct (Hd1 f Hin) as (-> & H). split; [left; reflexivity | exact H].
        + destruct (Hd f Hin) as (H1 & H2). split; [right; exact H1 | exact H2].
      - exists (pn1 ++ pn)%list. split; [symmetry; apply app_assoc |].
        intros f r Hin. apply in_app_or in Hin as [Hin | Hin].
        + destruct (Hp1 f r Hin) as (-> & H). split; [left; reflexivity | exact H].
        + destruct (Hp f r Hin) as (H1 & H2). split; [right; exact H1 | exact H2]. }
    destruct (isfile st file) eqn:Hf.
    + destruct (getsize st (org_file_of file)) as [n | x] eqn:Ho; cbn [res_bind];
        [| exact (getsize_raise _ _ _ Ho)].
      destruct (getsize st file) as [m | x] eqn:Hm; cbn [res_bind];
        [| exact (getsize_raise _ _ _ Hm)].
      destruct (Nat.eqb_spec m n) as [<- | Hne]; apply Hnext.
      * exists [file]. split; [reflexivity |]. intros f [<- | []]. split; [reflexivity |]. eexists; split; eassumption.
      * exists []. rewrite app_nil_r. split; [reflexivity | intros ? ? []].
      * exists []. rewrite app_nil_r. split; [reflexivity | intros ? []].
      * exists [(file, "Size does not match")]. split; [reflexivity |].
        intros f r [H | []]. injection H as <- <-. split; [reflexivity |]. right. eauto 10.
    + apply Hnext.
      * exists []. rewrite app_nil_r. split; [reflexivity | intros ? []].
      * exists [(file, "No file")]. split; [reflexivity |].
        intros f r [H | []]. injection H as <- <-. split; [reflexivity |]. left. auto.
Qed.

Lemma compare_sizes_missing_org (st : store) (quene : list string) (file : string) :
  In file quene -> isfile st file = true -> isfile st (org_file_of file) = false ->
  forall d p, compare_sizes st quene d p = Raise OSError.
Proof.
  intros Hin Hf Ho. induction quene as [| g rest IH]; [destruct Hin |]. intros d p.
  cbn [compare_sizes]. destruct Hin as [-> | Hin].
  - rewrite Hf. rewrite (proj2 (proj1 (getsize_isfile st (org_file_of file))) Ho). reflexivity.
  - destruct (isfile st g); [| apply IH, Hin].
    destruct (getsize st (org_file_of g)) as [n | x] eqn:E1; cbn [res_bind];
      [| rewrite (getsize_raise _ _ _ E1); reflexivity].
    destruct (getsize st g) as [m | x] eqn:E2; cbn [res_bind];
      [| rewrite (getsize_raise _ _ _ E2); reflexivity].
    destruct (m =? n)%nat; apply IH, Hin.
Qed.

Lemma kopie_queue_isfile (st : store) (path file : string) :
  In file (kopie_queue st path) -> isfile st file = true.
Proof.
  unfold kopie_queue. intros H. apply filter_In in H as [_ H].
  apply andb_prop in H as [_ H]. exact H.
Qed.

(** X18: [delete_copy_pictures_from_destination] deletes a candidate only when
    its presumed original exists with the same size; every problem it reports
    is a candidate whose original has a different size ("No file" never
    occurs: the candidates are existing files).  Its only exception is the
    [OSError] of [os.path.getsize] or [os.remove]. *)
Theorem delete_copy_pictures_same_size_only (fuel : nat) (outcome : string -> rm_outcome)
    (st : store) (path : string) :
  match delete_copy_pictures_from_destination fuel outcome st path with
  | Some (Ok (deleted_files, problem_files)) =>
      (forall file, In file deleted_files -> In file (kopie_queue st path)
         /\ exists n, getsize st file = Ok n /\ getsize st (org_file_of file) = Ok n)
      /\ (forall file reason, In (file, reason) problem_files -> In file (kopie_queue st path)
         /\ reason = "Size does not match"
         /\ exists n m, getsize st file = Ok n /\ getsize st (org_file_of file) = Ok m /\ n <> m)
  | Some (Raise x) => x = OSError
  | None => True
  end.
Proof.
  unfold delete_copy_pictures_from_destination.
  pose proof (compare_sizes_spec st (kopie_queue st path) [] []) as C.
  destruct (compare_sizes st (kopie_queue st path) [] []) as [[d p] | x] eqn:C0; [| exact C].
  pose proof (compare_sizes_lengths _ _ _ _ _ _ C0) as Hlen. cbn [length] in Hlen.
  destruct C as ((dn & -> & Hd) & (pn & -> & Hp)). cbn [Datatypes.app] in *.
  pose proof (delete_loop_result outcome fuel 0 dn st) as L.
  destruct (delete_loop outcome fuel 0 dn st) as [[[[d' st'] c] | x] |]; [| exact L | exact I].
  destruct L as [-> _]. cbn [length Nat.ltb Nat.leb].
  rewrite (proj2 (Nat.eqb_eq _ _)) by lia. split; [exact Hd |].
  intros f r Hin. destruct (Hp f r Hin) as (Hq & [[_ Hno] | (Hr & H)]).
  - rewrite (kopie_queue_isfile _ _ _ Hq) in Hno. discriminate.
  - split; [exact Hq | split; [exact Hr | exact H]].
Qed.

(** X19: a candidate whose presumed original does not exist makes
    [os.path.getsize] raise, which aborts the whole reconciliation before
    anything is deleted. *)
Theorem delete_copy_pictures_missing_original (fuel : nat) (outcome : string -> rm_outcome)
    (st : store) (path file : string) :
  In file (kopie_queue st path) -> isfile st (org_file_of file) = false ->
  delete_copy_pictures_from_destination fuel outcome st path = Some (Raise OSError).
Proof.
  intros Hin Ho. unfold delete_copy_pictures_from_destination.
  rewrite (compare_sizes_missing_org st _ file Hin (kopie_queue_isfile _ _ _ Hin) Ho).
  reflexivity.
Qed.

Lemma delete_copy_pictures_missing_original_witness :
  In "/dst/a_Kopie(1).jpg" (kopie_queue [("/dst/a_Kopie(1).jpg", 5)] "/dst")
  /\ isfile [("/dst/a_Kopie(1).jpg", 5)] (org_file_of "/dst/a_Kopie(1).jpg") = false
  /\ delete_copy_pictures_from_destination 20 (fun _ => Removed)
       [("/dst/a_Kopie(1).jpg", 5)] "/dst" = Some (Raise OSError).
Proof.
  split; [vm_compute; left; reflexivity |]. split; [vm_compute; reflexivity |].
  apply delete_copy_pictures_missing_original with (file := "/dst/a_Kopie(1).jpg");
    vm_compute; [left |]; reflexivity.
Defined.

Lemma compare_sizes_covers (st : store) (quene : list string) :
  forall deleted_files problem_files d' p',
  compare_sizes st quene deleted_files problem_files = Ok (d', p') ->
  forall file, In file quene -> In file d' \/ exists reason, In (file, reason) p'.
Proof.
  induction quene as [| g rest IH]; intros d p d' p' H file Hin; [destruct Hin |].
  assert (Hkeep : forall d1 p1, compare_sizes st rest d1 p1 = Ok (d', p') ->
                  incl d1 d' /\ incl p1 p').
  { clear. induction rest as [| h rest IHr]; intros d1 p1 H; cbn [compare_sizes] in H.
    - injection H as <- <-. split; apply incl_refl.
    - destruct (isfile st h).
      + destruct (getsize st (org_file_of h)) as [n |]; [cbn [res_bind] in H | discriminate].
        destruct (getsize st h) as [m |]; [cbn [res_bind] in H | discriminate].
        destruct (m =? n)%nat; apply IHr in H as [H1 H2];
          split; intros q Hq; [apply H1 | apply H2 | apply H1 | apply H2];
          rewrite ?in_app_iff; auto.
      + apply IHr in H as [H1 H2].
        split; intros q Hq; [apply H1 | apply H2]; rewrite ?in_app_iff; auto. }
  cbn [compare_sizes] in H. destruct Hin as [<- | Hin].
  - destruct (isfile st g).
    + destruct (getsize st (org_file_of g)) as [n |]; [cbn [res_bind] in H | discriminate].
      destruct (getsize st g) as [m |]; [cbn [res_bind] in H | discriminate].
      destruct (m =? n)%nat; apply Hkeep in H as [H1 H2].
      * left. apply H1, in_or_app. right. left. reflexivity.
      * right. eexists. apply H2, in_or_app. right. left. reflexivity.
    + apply Hkeep in H as [_ H2]. right. eexists. apply H2, in_or_app. right. left. reflexivity.
  - destruct (isfile st g).
    + destruct (getsize st (org_file_of g)) as [n |]; [cbn [res_bind] in H | discriminate].
      destruct (getsize st g) as [m |]; [cbn [res_bind] in H | discriminate].
      destruct (m =? n)%nat; exact (IH _ _ _ _ H file Hin).
    + exact (IH _ _ _ _ H file Hin).
Qed.

Lemma before_first_noK (x s : string) :
  has_char "K" x = false -> before_first "Kopie" (x ++ s) = x ++ before_first "Kopie" s.
Proof.
  induction x as [| c x IH]; intros H; [reflexivity |].
  cbn [has_char] in H. apply orb_false_iff in H as [Hc H].
  cbn [append before_first].
  replace (String.prefix "Kopie" (String c (x ++ s))) with false.
  - rewrite IH by exact H. reflexivity.
  - cbn [String.prefix]. destruct (ascii_dec "K" c) as [<- | _]; [discriminate Hc | reflexivity].
Qed.

Lemma py_drop_last_dot (x : string) : py_drop_last (x ++ ".") = x.
Proof.
  induction x as [| c x IH]; [reflexivity |].
  cbn [append]. destruct x as [| d x]; [reflexivity |].
  change (py_drop_last (String c (String d x ++ "."))) with
    (String c (py_drop_last (String d x ++ "."))).
  rewrite IH. reflexivity.
Qed.

Lemma split_dot_go_nodot (cur z : string) :
  has_char "." z = false -> split_dot_go cur z = [cur ++ z].
Proof.
  revert cur. induction z as [| c z IH]; intros cur H; cbn [split_dot_go].
  - rewrite string_app_nil_r. reflexivity.
  - cbn [has_char] in H. apply orb_false_iff in H as [Hc H]. rewrite Hc.
    rewrite IH by exact H. rewrite string_app_assoc. reflexivity.
Qed.

Lemma split_dot_go_last_dot (cur x z : string) :
  last (split_dot_go cur (x ++ String "." z)) "" = last (split_dot_go "" z) "".
Proof.
  revert cur. induction x as [| c x IH]; intros cur; cbn [append split_dot_go].
  - rewrite Ascii.eqb_refl. destruct (split_dot_go_nonempty "" z) as (a & r & ->). reflexivity.
  - destruct (c =? ".")%char; [| apply IH].
    rewrite <- (IH ""). destruct (split_dot_go_nonempty "" (x ++ String "." z)) as (a & r & E).
    rewrite E. reflexivity.
Qed.

Lemma before_first_dot_kopie (y : string) : before_first "Kopie" (".Kopie" ++ y) = ".".
Proof. simpl. destruct y; reflexivity. Qed.

Lemma org_file_of_self (x y : string) :
  has_char "K" x = false -> has_char "." y = false ->
  org_file_of (x ++ ".Kopie" ++ y) = x ++ ".Kopie" ++ y.
Proof.
  intros Hx Hy. unfold org_file_of, py_split, py_split_dot.
  rewrite split_sep_go_head by lia. cbn [append].
  rewrite before_first_noK by exact Hx.
  change (String "." (String "K" (String "o" (String "p" (String "i" (String "e" y))))))
    with (".Kopie" ++ y).
  rewrite before_first_dot_kopie.
  rewrite py_drop_last_dot.
  change (last (split_dot_go "" (x ++ ".Kopie" ++ y)) "")
    with (last (split_dot_go "" (x ++ String "." ("Kopie" ++ y))) "").
  rewrite split_dot_go_last_dot, split_dot_go_nodot; [reflexivity |].
  cbn [append has_char]. exact Hy.
Qed.

(** X20: a file named [x.Kopie...] (no [K] before the dot, no dot after
    [Kopie]) is its own presumed original: its size always matches, so when
    it is a candidate the reconciliation deletes it although no separate
    original exists. *)
Theorem delete_copy_pictures_self_original (fuel : nat) (outcome : string -> rm_outcome)
    (st : store) (path x y : string) :
  has_char "K" x = false -> has_char "." y = false ->
  In (x ++ ".Kopie" ++ y) (kopie_queue st path) ->
  org_file_of (x ++ ".Kopie" ++ y) = x ++ ".Kopie" ++ y
  /\ match delete_copy_pictures_from_destination fuel outcome st path with
     | Some (Ok (deleted_files, _)) => In (x ++ ".Kopie" ++ y) deleted_files
     | _ => True
     end.
Proof.
  intros Hx Hy Hin. pose proof (org_file_of_self x y Hx Hy) as Hself.
  split; [exact Hself |].
  unfold delete_copy_pictures_from_destination.
  pose proof (compare_sizes_spec st (kopie_queue st path) [] []) as S.
  destruct (compare_sizes st (kopie_queue st path) [] []) as [[d p] | x'] eqn:C; [| exact I].
  destruct (delete_loop outcome fuel 0 d st) as [[[[d' st'] c] | x'] |]; [| exact I | exact I].
  destruct (_ =? _)%nat; [| exact I].
  destruct (compare_sizes_covers st _ [] [] d p C _ Hin) as [H | (r & H)]; [exact H |].
  exfalso. destruct S as (_ & (pn & -> & Hp)).
  destruct (Hp _ _ H) as (_ & [[_ Hno] | (_ & n & m & H1 & H2 & Hne)]).
  - rewrite (kopie_queue_isfile _ _ _ Hin) in Hno. discriminate.
  - rewrite Hself, H1 in H2. injection H2 as ->. contradiction.
Qed.

Lemma delete_copy_pictures_self_original_witness :
  has_char "K" "/dst/a" = false /\ has_char "." "" = false
  /\ In ("/dst/a" ++ ".Kopie" ++ "") (kopie_queue [("/dst/a.Kopie", 7)] "/dst")
  /\ org_file_of "/dst/a.Kopie" = "/dst/a.Kopie"
  /\ delete_copy_pictures_from_destination 20 (fun _ => Removed) [("/dst/a.Kopie", 7)] "/dst"
     = Some (Ok (["/dst/a.Kopie"], [])).
Proof.
  assert (H : has_char "K" "/dst/a" = false /\ has_char "." "" = false
              /\ In ("/dst/a" ++ ".Kopie" ++ "") (kopie_queue [("/dst/a.Kopie", 7)] "/dst")).
  { split; [reflexivity | split; [reflexivity | vm_compute; left; reflexivity]]. }
  destruct H as (H1 & H2 & H3). split; [exact H1 | split; [exact H2 | split; [exact H3 |]]].
  split; [exact (proj1 (delete_copy_pictures_self_original 20 (fun _ => Removed)
                          [("/dst/a.Kopie", 7)] "/dst" "/dst/a" "" H1 H2 H3)) |].
  vm_compute. reflexivity.
Defined.
